(** * ruwai_check_v2: a shallow embedding of the Ruwai service script

    The script [ruwai_check_v2.py] is a straight-line interactive
    program: it talks to a datalogger over ssh, prompts the operator,
    writes a run log and shells out to local commands.  It is embedded
    here as a program in a small trace-and-exception monad that runs
    against an oracle for the outside world.

    The session starts at the welcome message: the set-up of the two
    log handlers before it only wires the logging library.  A Python
    [str] is a string whose characters stand for the code points of the
    same number, so the strings covered are those of code points below
    256; the lines read from a pipe are byte strings.  Every call that
    leaves the Python process can fail, and an interrupt is an
    exception raised by such a call. *)

From Stdlib Require Import ZArith List String Ascii Lia DecimalString.
From stdpp Require Import base option list strings gmap.

Local Open Scope string_scope.
Local Open Scope Z_scope.

(** ** Python strings *)

(** Characters that the Python literals of the script write as escapes. *)
Definition chr (n : nat) : string := String (ascii_of_nat n) EmptyString.
Definition nl : string := chr 10.
Definition tab : string := chr 9.
Definition dq : string := chr 34.

Notation "s == t" := (String.eqb s t) (at level 70, no associativity) : string_scope.

(** [s.split(sep)] for a one-character separator: the segments between
    the occurrences of [sep]; never an empty list. *)
Fixpoint py_split (sep : ascii) (s : string) : list string :=
  match s with
  | EmptyString => [EmptyString]
  | String c s' =>
      if Ascii.eqb c sep then EmptyString :: py_split sep s'
      else match py_split sep s' with
           | seg :: segs => String c seg :: segs
           | [] => [String c EmptyString]
           end
  end.

(** [sep.join(parts)] *)
Fixpoint py_join (sep : string) (parts : list string) : string :=
  match parts with
  | [] => EmptyString
  | [p] => p
  | p :: ps => p ++ sep ++ py_join sep ps
  end.

(** [str(n)] for an int. *)
Definition py_str (n : Z) : string := NilZero.string_of_int (Z.to_int n).

(** ** Exceptions *)

Inductive exn : Type :=
| ValueError (literal : string)
| KeyError (key : string)
| IndexError
| RemoteError (msg : string)
| OSError (msg : string)
| EOFError
| KeyboardInterrupt.

Inductive result (A : Type) : Type :=
| Ok (a : A)
| Raise (e : exn).
Arguments Ok {A} a.
Arguments Raise {A} e.

Definition is_ok {A} (r : result A) : bool :=
  match r with Ok _ => true | Raise _ => false end.

Definition rbind {A B} (r : result A) (k : A → result B) : result B :=
  match r with Ok a => k a | Raise e => Raise e end.

(** [l[0]] *)
Definition py_first {A} (l : list A) : result A :=
  match l with x :: _ => Ok x | [] => Raise IndexError end.

(** Whitespace as [str.strip()] sees it, and as [int()] sees it: the
    four separators 28 to 31 are stripped by the first and rejected by
    the second. *)
Definition is_py_space (c : ascii) : bool :=
  let n := nat_of_ascii c in
  ((9 <=? n) && (n <=? 13) || (28 <=? n) && (n <=? 32) || (n =? 133) || (n =? 160))%nat.

Definition is_int_space (c : ascii) : bool :=
  let n := nat_of_ascii c in
  ((9 <=? n) && (n <=? 13) || (n =? 32) || (n =? 133) || (n =? 160))%nat.

Definition is_digit (c : ascii) : bool :=
  let n := nat_of_ascii c in ((48 <=? n) && (n <=? 57))%nat.

Definition digit_val (c : ascii) : Z := Z.of_nat (nat_of_ascii c) - 48.

Fixpoint lstrip (space : ascii → bool) (s : list ascii) : list ascii :=
  match s with
  | c :: s' => if space c then lstrip space s' else s
  | [] => []
  end.

Definition strip (space : ascii → bool) (s : list ascii) : list ascii :=
  rev (lstrip space (rev (lstrip space s))).

Definition py_strip (s : list ascii) : list ascii := strip is_py_space s.

(** Digits after the first one; [prev_us] records that the previous
    character was an underscore, which must be followed by a digit. *)
Fixpoint int_digits (acc : Z) (prev_us : bool) (s : list ascii) : option Z :=
  match s with
  | [] => if prev_us then None else Some acc
  | c :: s' =>
      if is_digit c then int_digits (10 * acc + digit_val c) false s'
      else if Ascii.eqb c "_" then
        if prev_us then None else int_digits acc true s'
      else None
  end.

Definition int_unsigned (s : list ascii) : option Z :=
  match s with
  | c :: s' => if is_digit c then int_digits (digit_val c) false s' else None
  | [] => None
  end.

(** The longest run of digits [int()] converts (the default of
    [sys.get_int_max_str_digits()]). *)
Definition int_max_str_digits : nat := 4300.

(** [int(s)]: optional surrounding whitespace, an optional sign, then
    decimal digits in which single underscores may separate digits; a
    literal of more than [int_max_str_digits] digits is rejected.  Both
    rejections are a [ValueError], kept here with the literal. *)
Definition py_int (s : string) : result Z :=
  let body := strip is_int_space (list_ascii_of_string s) in
  let parsed :=
    match body with
    | c :: s' =>
        if Ascii.eqb c "-" then Z.opp <$> int_unsigned s'
        else if Ascii.eqb c "+" then int_unsigned s'
        else int_unsigned body
    | [] => None
    end in
  match parsed with
  | Some n =>
      if (List.length (List.filter is_digit body) <=? int_max_str_digits)%nat
      then Ok n else Raise (ValueError s)
  | None => Raise (ValueError s)
  end.

(** ** The registry (INPUT PARAMETERS) *)

(** A station dictionary maps a serial number to a station name.  The
    dictionary of networks is iterated by the script, so it keeps its
    insertion order: a list of (network name, station dictionary) whose
    names are pairwise distinct, as the keys of a dict are. *)
Definition SBK_stations : gmap string string :=
  list_to_map [("00006", "OBS"); ("0000B", "PIL"); ("00009", "MOR");
               ("00008", "MIT"); ("00004", "STO")].

Definition KITZ_stations : gmap string string :=
  list_to_map [("00007", "BH1"); ("0000A", "BH2"); ("00005", "BH3")].

Definition NOW_stations : gmap string string :=
  list_to_map [("0000F", "NUKL"); ("0000G", "ZACP"); ("0000H", "ZACR");
               ("0000K", "PATW"); ("0000J", "PATE"); ("0000I", "PATT")].

Definition registry : Type := list (string * gmap string string).

Definition networks : registry :=
  [("SBK_stations", SBK_stations);
   ("KITZ_stations", KITZ_stations);
   ("NOW_stations", NOW_stations)].

Definition ip : string := "192.168.20.100".
Definition user : string := "ruwai".
Definition pwd : string := "pfauenauge".

(** [d[k]] and [k in d] on a station dictionary. *)
Definition dict_getitem (d : gmap string string) (k : string) : result string :=
  match d !! k with Some v => Ok v | None => Raise (KeyError k) end.

Definition dict_contains (d : gmap string string) (k : string) : bool :=
  bool_decide (is_Some (d !! k)).

(** ** Identity resolution

    <<
    network = "unknown_network"
    station = "unknown_station"
    for n in networks:
        if sn in networks[n]:
            network = n
            station = networks[n][sn]
    >> *)
Definition lookup_step (sn : string) (acc : result (string * string))
    (entry : string * gmap string string) : result (string * string) :=
  rbind acc (λ cur,
    if dict_contains entry.2 sn
    then rbind (dict_getitem entry.2 sn) (λ st, Ok (entry.1, st))
    else Ok cur).

Definition lookup_station (sn : string) (nets : registry) : result (string * string) :=
  foldl (lookup_step sn) (Ok ("unknown_network", "unknown_station")) nets.


(** ** Dates

    [datetime.today()] as the script uses it: the calendar date, its
    [year] attribute and [strftime] with the directives [%Y], [%m],
    [%d] and [%j]. *)
Record date : Type := Date { year : Z; month : Z; day : Z }.

Definition zero_pad (width : nat) (s : string) : string :=
  String.concat EmptyString (repeat "0" (width - String.length s)) ++ s.

Definition is_leap (y : Z) : bool :=
  (y mod 4 =? 0) && (negb (y mod 100 =? 0) || (y mod 400 =? 0)).

Definition days_before_month (y m : Z) : Z :=
  nth (Z.to_nat (m - 1)) [0; 31; 59; 90; 120; 151; 181; 212; 243; 273; 304; 334] 0
  + (if (2 <? m) && is_leap y then 1 else 0).

Definition day_of_year (d : date) : Z := days_before_month (year d) (month d) + day d.

(** [%Y] is the year as the C library prints it, without padding;
    [%m], [%d] and [%j] are padded with zeros. *)
Definition strftime_Ymd (d : date) : string :=
  py_str (year d) ++ zero_pad 2 (py_str (month d)) ++ zero_pad 2 (py_str (day d)).

Definition strftime_Y_m_d (d : date) : string :=
  py_str (year d) ++ "-" ++ zero_pad 2 (py_str (month d)) ++ "-"
  ++ zero_pad 2 (py_str (day d)).

Definition strftime_j (d : date) : string := zero_pad 3 (py_str (day_of_year d)).

(** ** Paths

    [pathlib.Path(a, b, ...)] on a POSIX system: every argument is cut
    at its slashes, empty and [.] segments are dropped, and an argument
    that starts with a slash discards what came before it.  A path is
    kept as its root and its list of segments. *)
Record path : Type := Path { root : string; parts : list string }.

Definition segments (arg : string) : list string :=
  List.filter (λ p, negb (p == EmptyString) && negb (p == ".")) (py_split "/" arg).

Definition root_of (arg : string) : string :=
  match arg with
  | String "/" (String "/" (String "/" _)) => "/"
  | String "/" (String "/" _) => "//"
  | String "/" _ => "/"
  | _ => EmptyString
  end.

Definition path_add (p : path) (arg : string) : path :=
  if root_of arg == EmptyString
  then Path (root p) (parts p ++ segments arg)%list
  else Path (root_of arg) (segments arg).

Definition make_path (args : list string) : path :=
  foldl path_add (Path EmptyString []) args.

(** [str(p)] *)
Definition path_str (p : path) : string :=
  match root p, parts p with
  | EmptyString, [] => "."
  | r, ps => r ++ py_join "/" ps
  end.

(** ** Events and the outside world

    Every call that leaves the Python process is an event, recorded
    with its outcome.  [logger.info] cannot fail: the logging library
    reports the errors of its handlers on stderr and goes on. *)
Inductive event : Type :=
| EvLog (msg : string)                                  (* logger.info *)
| EvPrint (msg : string) (r : result unit)              (* print *)
| EvInput (prompt : string) (r : result string)         (* input *)
| EvCall (command : string) (r : result Z)              (* subprocess.call(..., shell=True) *)
| EvPopen (command : string) (r : result (list string)) (* subprocess.Popen and its stdout *)
| EvHome (r : result string)                            (* str(pathlib.Path.home()) *)
| EvCwd (r : result string)                             (* os.getcwd() *)
| EvOpenConnection (host : string) (r : result unit)
| EvLogin (usr pw : string) (r : result unit)
| EvExecute (command : string) (r : result string)
| EvListFiles (dir : string) (r : result (list string))
| EvGetFile (src dst : string) (r : result unit)
| EvGetDirectory (src dst : string) (recursive : bool) (r : result unit)
| EvMkdir (p : string) (r : result unit)
| EvToday (d : date)
| EvSleep (secs : Z) (r : result unit).

(** The collaborators answer as a function of what has happened so far,
    so the same request can be answered differently at different times.
    [w_call] gives the exit status of a local shell command, or the
    exception with which the shell could not be started; [w_spawn] does
    the same for the start of a pipeline.  [w_files] gives the lines
    that [cat] prints for the files a shell glob expands to (nothing if
    [cat] fails).  The last three fields answer where this model does
    not interpret: [w_shell] is the output of a command whose text the
    shell does not read as the intended pipeline, [w_grep] is grep's
    verdict on a line that is not plain ASCII, and [w_decode] is
    [bytes.decode(encoding="utf-8", errors="ignore")] on such a
    line. *)
Record World : Type := {
  w_home : result string;
  w_cwd : result string;
  w_today : list event → date;
  w_input : list event → string → result string;
  w_print : list event → string → result unit;
  w_sleep : list event → Z → result unit;
  w_call : list event → string → result Z;
  w_spawn : list event → string → result unit;
  w_open_connection : list event → string → result unit;
  w_login : list event → string → string → result unit;
  w_execute_command : list event → string → result string;
  w_list_files : list event → string → result (list string);
  w_get_file : list event → string → string → result unit;
  w_get_directory : list event → string → string → bool → result unit;
  w_mkdir : list event → string → result unit;
  w_files : list event → string → list string;
  w_shell : list event → string → list string;
  w_grep : string → string → bool;
  w_decode : string → string;
}.

(** ** The script monad

    A computation reads the world and the history and yields a value or
    an uncaught exception together with the events it emitted. *)
Definition M (A : Type) : Type := World → list event → result A * list event.

Definition ret {A} (a : A) : M A := λ _ _, (Ok a, []).

Definition bind {A B} (m : M A) (k : A → M B) : M B :=
  λ w h,
    match m w h with
    | (Ok a, t1) => let '(r, t2) := k a w (h ++ t1)%list in (r, (t1 ++ t2)%list)
    | (Raise e, t1) => (Raise e, t1)
    end.

Definition lift {A} (r : result A) : M A := λ _ _, (r, []).

#[export] Instance M_ret : MRet M := @ret.
#[export] Instance M_bind : MBind M := λ A B k m, bind m k.

Definition emit (e : event) : M unit := λ _ _, (Ok tt, [e]).

Definition logger_info (msg : string) : M unit := emit (EvLog msg).

Definition print (msg : string) : M unit :=
  λ w h, let r := w_print w h msg in (r, [EvPrint msg r]).

Definition sleep (secs : Z) : M unit :=
  λ w h, let r := w_sleep w h secs in (r, [EvSleep secs r]).

(** [subprocess.call(command, shell=True)]; the exit status is returned
    and the script drops it. *)
Definition subprocess_call (command : string) : M Z :=
  λ w h, let r := w_call w h command in (r, [EvCall command r]).

Definition input (prompt : string) : M string :=
  λ w h, let r := w_input w h prompt in (r, [EvInput prompt r]).

Definition today : M date :=
  λ w h, let d := w_today w h in (Ok d, [EvToday d]).

Definition home : M string := λ w _, (w_home w, [EvHome (w_home w)]).
Definition cwd : M string := λ w _, (w_cwd w, [EvCwd (w_cwd w)]).

Definition open_connection (host : string) : M unit :=
  λ w h, let r := w_open_connection w h host in (r, [EvOpenConnection host r]).

Definition login (usr pw : string) : M unit :=
  λ w h, let r := w_login w h usr pw in (r, [EvLogin usr pw r]).

Definition execute_command (command : string) : M string :=
  λ w h, let r := w_execute_command w h command in (r, [EvExecute command r]).

Definition list_files_in_directory (dir : string) : M (list string) :=
  λ w h, let r := w_list_files w h dir in (r, [EvListFiles dir r]).

Definition get_file (src dst : string) : M unit :=
  λ w h, let r := w_get_file w h src dst in (r, [EvGetFile src dst r]).

Definition get_directory (src dst : string) (recursive : bool) : M unit :=
  λ w h, let r := w_get_directory w h src dst recursive in
         (r, [EvGetDirectory src dst recursive r]).

(** [p.mkdir(parents=True, exist_ok=True)] *)
Definition mkdir (p : path) : M unit :=
  λ w h, let r := w_mkdir w h (path_str p) in (r, [EvMkdir (path_str p) r]).

(** [for x in l: body x] *)
Fixpoint for_each {A} (l : list A) (body : A → M unit) : M unit :=
  match l with
  | [] => ret tt
  | x :: l' => body x;; for_each l' body
  end.


(** ** The shell pipeline [cat F | grep -a "S" | tail -n 10]

    The script pastes the path and the pattern into the text of a shell
    command.  The shell reads that text as the intended pipeline when
    the path is one plain word and the pattern stays as it is between
    the double quotes; the patterns the script builds are then basic
    regular expressions made of ordinary characters, escaped special
    characters, [.] and [*].  That fragment is interpreted here, on
    lines of plain ASCII, where grep's [.] matches every character
    whatever the locale. *)
Inductive atom : Type :=
| AChar (c : ascii)
| AAny.

Inductive item : Type :=
| One (a : atom)
| Star (a : atom).

Inductive token : Type :=
| TAtom (a : atom)
| TStar.

Definition is_printable (c : ascii) : bool :=
  let n := nat_of_ascii c in ((32 <=? n) && (n <=? 126))%nat.

Definition bre_special (c : ascii) : bool :=
  existsb (Ascii.eqb c) ["\"; "."; "*"; "["; "^"; "$"]%char.

(** Characters that the shell rewrites inside double quotes; a
    backslash before any other character reaches grep as it is. *)
Definition shell_special (c : ascii) : bool :=
  existsb (Ascii.eqb c) [ascii_of_nat 34; "$"; "`"; "\"; "!"]%char.

Definition bre_escapable (c : ascii) : bool :=
  existsb (Ascii.eqb c) ["."; "*"; "["; "]"; "^"]%char.

(** Characters that stand for themselves both in the shell's double
    quotes and in a basic regular expression. *)
Definition plain_char (c : ascii) : bool :=
  is_printable c && negb (bre_special c || shell_special c).

Fixpoint bre_tokens (escaped : bool) (s : list ascii) : option (list token) :=
  match s with
  | [] => if escaped then None else Some []
  | c :: s' =>
      if escaped then
        if bre_escapable c then cons (TAtom (AChar c)) <$> bre_tokens false s' else None
      else if Ascii.eqb c "\" then bre_tokens true s'
      else if Ascii.eqb c "." then cons (TAtom AAny) <$> bre_tokens false s'
      else if Ascii.eqb c "*" then cons TStar <$> bre_tokens false s'
      else if plain_char c then cons (TAtom (AChar c)) <$> bre_tokens false s'
      else None
  end.

Fixpoint bre_items (ts : list token) : option (list item) :=
  match ts with
  | [] => Some []
  | TAtom a :: TStar :: ts' => cons (Star a) <$> bre_items ts'
  | TAtom a :: ts' => cons (One a) <$> bre_items ts'
  | TStar :: _ => None
  end.

(** A pattern that starts with a dash would be read by grep as an
    option. *)
Definition bre_parse (pattern : string) : option (list item) :=
  if String.prefix "-" pattern then None
  else bre_tokens false (list_ascii_of_string pattern) ≫= bre_items.

Definition atom_match (a : atom) (c : ascii) : bool :=
  match a with AChar c' => Ascii.eqb c c' | AAny => true end.

Fixpoint match_here (p : list item) : list ascii → bool :=
  match p with
  | [] => λ _, true
  | One a :: p' => λ s,
      match s with
      | c :: s' => atom_match a c && match_here p' s'
      | [] => false
      end
  | Star a :: p' =>
      fix star (s : list ascii) : bool :=
        match_here p' s ||
        match s with
        | c :: s' => atom_match a c && star s'
        | [] => false
        end
  end.

Fixpoint match_anywhere (p : list item) (s : list ascii) : bool :=
  match_here p s ||
  match s with
  | _ :: s' => match_anywhere p s'
  | [] => false
  end.

(** A line of bytes below 128 without a newline. *)
Definition plain_line (line : string) : bool :=
  forallb (λ c, (nat_of_ascii c <? 128)%nat && negb (Ascii.eqb c (ascii_of_nat 10)))
    (list_ascii_of_string line).

(** grep's verdict on one line. *)
Definition grep_line (w : World) (p : list item) (pattern line : string) : bool :=
  if plain_line line then match_anywhere p (list_ascii_of_string line)
  else w_grep w pattern line.

(** [tail -n k] *)
Definition tail_n {A} (k : nat) (l : list A) : list A :=
  drop (List.length l - k) l.

Definition grep_command (f s : string) : string :=
  "cat " ++ f ++ " | grep -a " ++ dq ++ s ++ dq ++ " | tail -n 10".

(** An absolute path that the shell reads as one word, whose only
    expansion is that of its [*]. *)
Definition word_char (c : ascii) : bool :=
  let n := nat_of_ascii c in
  ((48 <=? n) && (n <=? 57) || (65 <=? n) && (n <=? 90) || (97 <=? n) && (n <=? 122))%nat
  || existsb (Ascii.eqb c) ["_"; "."; "/"; "-"; "*"]%char.

Definition shell_word (f : string) : bool :=
  String.prefix "/" f && forallb word_char (list_ascii_of_string f).

Definition pipeline (w : World) (h : list event) (f s : string) : list string :=
  match bre_parse s with
  | Some p =>
      if shell_word f then tail_n 10 (List.filter (grep_line w p s) (w_files w h f))
      else w_shell w h (grep_command f s)
  | None => w_shell w h (grep_command f s)
  end.

(** [subprocess.Popen(command, shell=True, stdout=subprocess.PIPE)]
    followed by the loop over [p1.stdout], whose lines keep their
    newline. *)
Definition popen_stdout (f s : string) : M (list string) :=
  λ w h,
    let r := match w_spawn w h (grep_command f s) with
             | Ok _ => Ok (pipeline w h f s)
             | Raise e => Raise e
             end in
    (r, [EvPopen (grep_command f s) r]).

(** [line.decode(encoding="utf-8", errors="ignore")] *)
Definition py_decode (w : World) (line : string) : string :=
  if plain_line line then line ++ nl else w_decode w (line ++ nl).

Definition decode (line : string) : M string :=
  λ w _, (Ok (py_decode w line), []).

Definition grep_tail (f s : string) : M unit :=
  lines ← popen_stdout f s;
  for_each lines (λ line, l ← decode line; logger_info l).


(** ** The session, section by section *)

Definition rule : string :=
  "--------------------------------------------------------------------------".
Definition stars : string := "************************************".

Definition welcome : M unit :=
  logger_info (nl ++ stars ++ nl ++ "Welcome to the Ruwai service script." ++ nl ++ stars ++ nl).

(** SSH CONNECTION *)
Definition ssh_connection : M unit :=
  hm ← home;
  subprocess_call ("ssh-keygen -f " ++ dq ++ hm ++ "/.ssh/known_hosts" ++ dq ++ " -R " ++ ip);;
  open_connection ip;;
  login user pwd;;
  logger_info (nl ++ "...ssh-connection with Ruwai datalogger established.").

(** CREATE LOCAL DIRECTORIES & DOWNLOAD RUWAI LOGS *)
Definition serial_command : string := "cat /etc/ruwai_serial".

Definition no_fit_message : string :=
  nl ++ "...the Ruwai S/N does not fit to any station in the dictionaries.".

Definition identify (nets : registry) : M (string * string * string) :=
  sn ← execute_command serial_command;
  '(network, station) ← lift (lookup_station sn nets);
  (if station == "unknown_station"
   then logger_info no_fit_message
   else logger_info (nl ++ "...you are at the " ++ station ++ " station (" ++ network ++ ")."));;
  mret (sn, network, station).

Definition phase_prompt : string :=
  nl ++ rule ++ nl ++ "Is this the service BEFORE or AFTER the sd card exchange?" ++ nl ++ nl
  ++ tab ++ "1. BEFORE the sd card exchange." ++ nl
  ++ tab ++ "2. AFTER the sd card exchange." ++ nl ++ nl ++ "Choose 1, or 2: ".

Definition station_dir (station sn option : string) : M string :=
  let st_dir := station ++ "_sn_" ++ sn in
  if option == "1" then
    logger_info (nl ++ rule);;
    logger_info "This is the service BEFORE the sd card exchange.";;
    logger_info rule;;
    mret (st_dir ++ "_1_BEX")
  else if option == "2" then
    logger_info (nl ++ rule);;
    logger_info "This is the service AFTER the sd card exchange.";;
    logger_info rule;;
    mret (st_dir ++ "_2_AEX")
  else mret st_dir.

(** [p.absolute()] *)
Definition absolute (c : string) (p : path) : path :=
  if root p == EmptyString
  then Path (root (make_path [c])) (parts (make_path [c]) ++ parts p)%list
  else p.

Definition archive_path (c : string) (yr : Z) (network sr_dir st_dir : string) : path :=
  make_path [path_str (absolute c (make_path [])); py_str yr; network; sr_dir; st_dir].

Definition create_directories (sn network station : string) : M (string * string) :=
  option ← input phase_prompt;
  print rule;;
  d ← today;
  let sr_dir := "sr" ++ strftime_Ymd d in
  st_dir ← station_dir station sn option;
  c ← cwd;
  d' ← today;
  let p := archive_path c (year d') network sr_dir st_dir in
  mkdir p;;
  let local_dest := path_str (absolute c (make_path [path_str p])) in
  let p_log := make_path [local_dest; "var_log"] in
  mkdir p_log;;
  let log_dest := path_str (absolute c (make_path [path_str p_log])) in
  logger_info (nl ++ "...directory structure on local machine done.");;
  mret (local_dest, log_dest).

(** [[f for f in all_logs if f.split(".")[0] == "ruwai"]] *)
Fixpoint select_logs (all_logs : list string) : result (list string) :=
  match all_logs with
  | [] => Ok []
  | f :: rest =>
      rbind (py_first (py_split "." f)) (λ seg,
      rbind (select_logs rest) (λ logs,
      Ok (if seg == "ruwai" then f :: logs else logs)))
  end.

Definition download_logs (log_dest : string) : M unit :=
  all_logs ← list_files_in_directory "/var/log/";
  logs ← lift (select_logs all_logs);
  for_each logs (λ f, get_file ("/var/log/" ++ f) (log_dest ++ "/" ++ f));;
  logger_info (nl ++ "...all Ruwai log-files downloaded to " ++ log_dest ++ "/.").

(** STATUS CHECKS *)
Definition du_command : string := "du -s /home/ruwai/ruwaicom/mseed_tmp | cut -f1".

Definition size_message (s : Z) : string :=
  "The current size of the mseed_tmp/ directory is " ++ py_str s ++ " kB.".

Definition logging_message (active : bool) : string :=
  if active then "Ruwai IS logging :) " else "Ruwai is NOT logging :(".

(** The size of [mseed_tmp/] is sampled twice; the result is the
    outcome of the comparison [s1 < s2]. *)
Definition activity_sampler : M bool :=
  logger_info (nl ++ nl ++ rule);;
  logger_info "Checking the current size of the mseed_tmp/ directory.";;
  logger_info rule;;
  o1 ← execute_command du_command;
  s1 ← lift (py_int o1);
  logger_info (size_message s1);;
  sleep 10;;
  o2 ← execute_command du_command;
  s2 ← lift (py_int o2);
  logger_info (size_message s2);;
  if s1 <? s2 then
    logger_info (nl ++ rule);;
    logger_info (logging_message true);;
    logger_info rule;;
    mret true
  else
    logger_info (nl ++ rule);;
    logger_info (logging_message false);;
    logger_info rule;;
    mret false.

Definition process_marker (pid : string) : string := "ruwaicom\[" ++ pid ++ "\]".

Definition sd_pattern (pid : string) : string := process_marker pid ++ ".*SD".
Definition gps_pattern (pid : string) : string := process_marker pid ++ ".*GPS_FIX".
Definition utc_pattern (pid : string) : string := ".*UTC_AVAILABLE".
Definition last_pattern (pid : string) : string := process_marker pid.

Definition status_extractor (log_dest pid : string) : M unit :=
  logger_info (nl ++ nl ++ rule);;
  logger_info "SD card status:";;
  logger_info rule;;
  let f := log_dest ++ "/ruwai.log*" in
  grep_tail f (sd_pattern pid);;
  logger_info (nl ++ nl ++ rule);;
  logger_info "GPS status:";;
  logger_info rule;;
  grep_tail f (gps_pattern pid);;
  logger_info (nl ++ nl ++ rule);;
  logger_info "UTC status:";;
  logger_info rule;;
  grep_tail f (utc_pattern pid);;
  logger_info (nl ++ nl ++ rule);;
  logger_info "Last log-file output:";;
  logger_info rule;;
  grep_tail f (last_pattern pid).

Definition filesystem_report : M unit :=
  logger_info (nl ++ nl ++ rule);;
  logger_info "Ruwai datalogger filesystem output:";;
  logger_info rule;;
  output ← execute_command "df -h";
  logger_info output;;
  logger_info (nl ++ nl ++ rule);;
  d1 ← today;
  d2 ← today;
  logger_info ("Date of today: " ++ tab ++ strftime_Y_m_d d1 ++ nl
               ++ "Day of year: " ++ tab ++ strftime_j d2);;
  d3 ← today;
  logger_info (nl ++ "Current directories in /media/sd/mseed/" ++ py_str (year d3) ++ "/:");;
  logger_info rule;;
  d4 ← today;
  output ← execute_command ("ls /media/sd/mseed/" ++ py_str (year d4));
  logger_info output.

Definition status_checks (log_dest : string) : M unit :=
  logger_info (nl ++ nl ++ rule);;
  logger_info "Ruwai status checks initiated.";;
  logger_info rule;;
  pid ← execute_command "pidof ruwaicom";
  logger_info ("Process ID of running ruwaicom software: " ++ pid);;
  activity_sampler;;
  status_extractor log_dest pid;;
  filesystem_report.

(** DATA DOWNLOAD *)
Definition download_prompt : string :=
  "Download options:" ++ nl ++ nl
  ++ tab ++ "0. Download the current mseed_tmp directory." ++ nl
  ++ tab ++ "1. Download the current mseed_tmp directory." ++ nl
  ++ tab ++ "2. Download all the log and mseed directories of the sd-card." ++ nl
  ++ tab ++ "3. Download all the log and mseed directories and clear the sd-card." ++ nl ++ nl
  ++ "Choose 0, 1, 2, or 3: ".

Definition download_option (option local_dest : string) : M unit :=
  if option == "0" then
    logger_info ("You chose download option 0:" ++ nl
                 ++ "Continue without any data download." ++ nl ++ nl)
  else if option == "1" then
    get_directory "/home/ruwai/ruwaicom/mseed_tmp" local_dest false;;
    logger_info ("You chose download option 1:" ++ nl
                 ++ "Current mseed_tmp/ directory was downloaded to" ++ nl ++ nl ++ local_dest)
  else if option == "2" then
    get_directory "/media/." local_dest true;;
    logger_info ("You chose download option 2:" ++ nl
                 ++ "All the log and mseed directories were downloaded to" ++ nl ++ nl
                 ++ local_dest)
  else if option == "3" then
    get_directory "/media/." local_dest true;;
    execute_command "rm -r /media/sd/log";;
    execute_command "rm -r /media/sd/mseed";;
    logger_info ("You chose download option 3:" ++ nl
                 ++ "All the log and mseed directories were downloaded to" ++ nl ++ nl
                 ++ local_dest ++ nl ++ nl ++ "and the sd card was cleared.")
  else mret tt.

Definition download_banner : string :=
  nl ++ nl ++ rule ++ nl ++ "Ruwai data download" ++ nl ++ rule.

Definition data_download (local_dest : string) : M unit :=
  logger_info download_banner;;
  option ← input download_prompt;
  download_option option local_dest.

(** FINISH UP *)
Definition finish_up (local_dest : string) : M unit :=
  logger_info (nl ++ nl ++ stars ++ nl ++ "All tasks finished.        Bye, Bye!" ++ nl
               ++ stars ++ nl ++ nl);;
  subprocess_call ("mv ./ruwai_check.log " ++ local_dest);;
  mret tt.

(** Everything up to the download prompt. *)
Definition service (nets : registry) : M string :=
  welcome;;
  ssh_connection;;
  '(sn, network, station) ← identify nets;
  '(local_dest, log_dest) ← create_directories sn network station;
  download_logs log_dest;;
  status_checks log_dest;;
  mret local_dest.

Definition session_with (nets : registry) : M unit :=
  local_dest ← service nets;
  data_download local_dest;;
  finish_up local_dest.

Definition session : M unit := session_with networks.

(** ** A cooperative world for running the script *)
Definition quiet_world (serial : string) (du : list event → string)
    (phase tier : string) (d : date) (listing : list string) : World :=
  {| w_home := Ok "/home/operator";
     w_cwd := Ok "/srv/archive";
     w_today := λ _, d;
     w_input := λ _ prompt, Ok (if prompt == phase_prompt then phase else tier);
     w_print := λ _ _, Ok tt;
     w_sleep := λ _ _, Ok tt;
     w_call := λ _ _, Ok 0;
     w_spawn := λ _ _, Ok tt;
     w_open_connection := λ _ _, Ok tt;
     w_login := λ _ _ _, Ok tt;
     w_execute_command := λ h command,
       if command == serial_command then Ok serial
       else if command == du_command then Ok (du h)
       else if command == "pidof ruwaicom" then Ok "412"
       else Ok EmptyString;
     w_list_files := λ _ _, Ok listing;
     w_get_file := λ _ _ _, Ok tt;
     w_get_directory := λ _ _ _ _, Ok tt;
     w_mkdir := λ _ _, Ok tt;
     w_files := λ _ _, [];
     w_shell := λ _ _, [];
     w_grep := λ _ _, false;
     w_decode := λ s, s |}.


(** ** Vocabulary for the properties *)

(** Stepping through a script: [after t x] puts the events [t] in
    front of the outcome [x] of the rest of the script. *)
Definition after {A} (t : list event) (x : result A * list event) : result A * list event :=
  (x.1, (t ++ x.2)%list).

(** Every event a script can emit satisfies [P]. *)
Definition emits {A} (P : event → Prop) (m : M A) : Prop :=
  ∀ w h, Forall P (m w h).2.

(** An event for which [bad] gives an exception ends the run with that
    exception: nothing is emitted after it, and everything emitted
    before it satisfies [P]. *)
Definition aborts_at {A} (bad : event → option exn) (P : event → Prop) (m : M A) : Prop :=
  ∀ w h pre ev post e,
    (m w h).2 = (pre ++ ev :: post)%list → bad ev = Some e →
    Forall P pre ∧ post = [] ∧ (m w h).1 = Raise e.

(** [s.strip()] *)
Definition py_strip_str (s : string) : string :=
  string_of_list_ascii (py_strip (list_ascii_of_string s)).

(** The first (network, station) pair found for a serial in iteration
    order, as the specification words the tie-break. *)
Fixpoint first_found (sn : string) (nets : registry) : string * string :=
  match nets with
  | [] => ("unknown_network", "unknown_station")
  | (n, d) :: rest =>
      match d !! sn with
      | Some st => (n, st)
      | None => first_found sn rest
      end
  end.

(** A registry in which serial 00006 is listed by two networks. *)
Definition duplicated_registry : registry :=
  [("SBK_stations", SBK_stations);
   ("KITZ_stations", <["00006" := "BH4"]> KITZ_stations);
   ("NOW_stations", NOW_stations)].

(** Each serial appears in at most one station dictionary. *)
Definition unique_serials (nets : registry) : Prop :=
  ∀ sn i j e1 e2,
    nets !! i = Some e1 → nets !! j = Some e2 →
    is_Some (e1.2 !! sn) → is_Some (e2.2 !! sn) → i = j.

Fixpoint disjoint_serials (nets : registry) : bool :=
  match nets with
  | [] => true
  | e :: rest =>
      forallb (λ e', bool_decide (dom e.2 ∩ dom e'.2 = (∅ : gset string))) rest
      && disjoint_serials rest
  end.

(** The second size sample is larger than the first. *)
Definition growing (h : list event) : string :=
  if existsb (λ ev, match ev with EvSleep _ _ => true | _ => false end) h
  then "150" else "100".

Definition var_log_listing : list string :=
  ["ruwai.log"; "ruwai.log.1"; "system.log"; "ruwaicom.txt"].

(** A visit to station OBS before the card exchange on 2024-03-01. *)
Definition field_visit : World :=
  quiet_world "00006" growing "1" "3" (Date 2024 3 1) var_log_listing.

(** The text of a name up to its first separator. *)
Fixpoint head_segment (sep : ascii) (f : string) : string :=
  match f with
  | EmptyString => EmptyString
  | String c f' => if Ascii.eqb c sep then EmptyString else String c (head_segment sep f')
  end.

(** A name that is [ruwai] or starts with [ruwai.] *)
Definition is_ruwai_name (f : string) : bool :=
  (f == "ruwai") || String.prefix "ruwai." f.

Definition copy_event (log_dest f : string) : event :=
  EvGetFile ("/var/log/" ++ f) (log_dest ++ "/" ++ f) (Ok tt).

Definition sampler_header : list event :=
  [EvLog (nl ++ nl ++ rule);
   EvLog "Checking the current size of the mseed_tmp/ directory.";
   EvLog rule].

(** A size query that was answered with [o], read as [s], and its
    report. *)
Definition sample_events (o : string) (s : Z) : list event :=
  [EvExecute "du -s /home/ruwai/ruwaicom/mseed_tmp | cut -f1" (Ok o);
   EvLog ("The current size of the mseed_tmp/ directory is " ++ py_str s ++ " kB.")].

(** A device whose size query prints [a] before the wait and [b] after
    it. *)
Definition two_samples (a b : string) : World :=
  quiet_world "00006"
    (λ h, if existsb (λ ev, match ev with EvSleep _ _ => true | _ => false end) h
          then b else a)
    "1" "3" (Date 2024 3 1) [].

(** A size query that was answered, but not with an integer. *)
Definition bad_sample (ev : event) : option exn :=
  match ev with
  | EvExecute command r =>
      if command == du_command
      then match r with
           | Ok out => match py_int out with Raise e => Some e | Ok _ => None end
           | Raise _ => None
           end
      else None
  | _ => None
  end.

Definition is_popen (ev : event) : bool :=
  match ev with EvPopen _ _ => true | _ => false end.

(** The same visit, but the size query prints nothing. *)
Definition silent_visit : World :=
  quiet_world "00006" (λ _, EmptyString) "1" "0" (Date 2024 3 1) var_log_listing.

(** Remote deletions, fetches that failed, a completed recursive fetch
    of the media mount point, and the operator's choice of option 3. *)
Definition is_delete (ev : event) : bool :=
  match ev with EvExecute command _ => String.prefix "rm " command | _ => false end.

Definition failed_fetch (ev : event) : bool :=
  match ev with EvGetDirectory _ _ _ (Raise _) => true | _ => false end.

Definition fetched_media (ev : event) : bool :=
  match ev with
  | EvGetDirectory src _ recursive (Ok _) => (src == "/media/.") && recursive
  | _ => false
  end.

Definition chose_wipe (ev : event) : bool :=
  match ev with
  | EvInput prompt (Ok answer) => (prompt == download_prompt) && (answer == "3")
  | _ => false
  end.

(** A monitor for traces: every deletion comes after an event accepted
    by [g]. *)
Fixpoint guarded (g : event → bool) (seen : bool) (t : list event) : bool :=
  match t with
  | [] => true
  | ev :: t' =>
      if is_delete ev then seen && guarded g seen t'
      else guarded g (seen || g ev) t'
  end.

(** A visit in which the operator types an option that is not offered. *)
Definition mistyped_visit : World :=
  quiet_world "00006" growing "1" "4" (Date 2024 3 1) var_log_listing.






(** A string that pathlib keeps as one path segment. *)
Definition no_slash (s : string) : bool :=
  forallb (λ c, negb (Ascii.eqb c "/")) (list_ascii_of_string s).

Definition is_segment (s : string) : bool :=
  negb (s == EmptyString) && negb (s == ".") && no_slash s.

(** A number written with [width] decimal digits (its last [width]
    digits). *)
Definition digit (n : Z) : ascii := ascii_of_nat (48 + Z.to_nat (n mod 10)).

Fixpoint decimal (width : nat) (n : Z) : string :=
  match width with
  | O => EmptyString
  | S k => decimal k (n / 10) ++ String (digit n) EmptyString
  end.

(** The suffix and the log entries that the answer to the phase prompt
    selects. *)
Definition phase_suffix (option : string) : string :=
  if option == "1" then "_1_BEX" else if option == "2" then "_2_AEX" else EmptyString.

Definition phase_events (option : string) : list event :=
  if option == "1" then
    [EvLog (nl ++ rule); EvLog "This is the service BEFORE the sd card exchange."; EvLog rule]
  else if option == "2" then
    [EvLog (nl ++ rule); EvLog "This is the service AFTER the sd card exchange."; EvLog rule]
  else [].

(** Paths as pathlib builds them: one of its three roots, and proper
    segments. *)
Definition well_formed (P : path) : Prop :=
  (root P = EmptyString ∨ root P = "/" ∨ root P = "//") ∧
  Forall (λ p, is_segment p = true) (parts P).

(** ** Vocabulary for the further properties *)

(** The exception with which a call to a collaborator failed. *)
Definition failure (ev : event) : option exn :=
  match ev with
  | EvPrint _ (Raise e) => Some e
  | EvInput _ (Raise e) => Some e
  | EvCall _ (Raise e) => Some e
  | EvPopen _ (Raise e) => Some e
  | EvHome (Raise e) => Some e
  | EvCwd (Raise e) => Some e
  | EvSleep _ (Raise e) => Some e
  | EvOpenConnection _ (Raise e) => Some e
  | EvLogin _ _ (Raise e) => Some e
  | EvExecute _ (Raise e) => Some e
  | EvListFiles _ (Raise e) => Some e
  | EvGetFile _ _ (Raise e) => Some e
  | EvGetDirectory _ _ _ (Raise e) => Some e
  | EvMkdir _ (Raise e) => Some e
  | _ => None
  end.

(** What can stop a run: a failed call, or a size query whose answer is
    not an integer. *)
Definition cause (ev : event) : option exn :=
  match failure ev with
  | Some e => Some e
  | None => bad_sample ev
  end.


(** A monitor for traces: every event accepted by [trig] comes after an
    event accepted by [g]. *)
Fixpoint preceded (g trig : event → bool) (seen : bool) (t : list event) : bool :=
  match t with
  | [] => true
  | ev :: t' =>
      if trig ev then seen && preceded g trig seen t'
      else preceded g trig (seen || g ev) t'
  end.

Definition ordered {A} (g trig : event → bool) (m : M A) : Prop :=
  ∀ w h, preceded g trig false (m w h).2 = true.

(** A script that returns normally has emitted an event accepted by [g]. *)
Definition sets {A} (g : event → bool) (m : M A) : Prop :=
  ∀ w h a, (m w h).1 = Ok a → existsb g (m w h).2 = true.

Definition is_remote (ev : event) : bool :=
  match ev with
  | EvExecute _ _ | EvListFiles _ _ | EvGetFile _ _ _ | EvGetDirectory _ _ _ _ => true
  | _ => false
  end.

Definition logged_in (ev : event) : bool :=
  match ev with EvLogin usr pw (Ok _) => (usr == user) && (pw == pwd) | _ => false end.

Definition connected (ev : event) : bool :=
  match ev with EvOpenConnection host (Ok _) => host == ip | _ => false end.

Definition is_connect (ev : event) : bool :=
  match ev with EvOpenConnection _ _ => true | _ => false end.

Definition host_key_removed (ev : event) : bool :=
  match ev with
  | EvCall command (Ok _) => String.prefix "ssh-keygen -f " command
  | _ => false
  end.



Definition is_fetch (ev : event) : bool :=
  match ev with EvGetDirectory _ _ _ _ => true | _ => false end.



(** The remote operations the script is written to perform. *)
Definition allowed_remote (ev : event) : Prop :=
  match ev with
  | EvExecute command _ =>
      In command [serial_command; "pidof ruwaicom"; du_command; "df -h";
                  "rm -r /media/sd/log"; "rm -r /media/sd/mseed"]
      ∨ ∃ yr, command = "ls /media/sd/mseed/" ++ py_str yr
  | EvListFiles dir _ => dir = "/var/log/"
  | EvGetFile src dst _ =>
      ∃ dir f, is_ruwai_name f = true ∧ src = "/var/log/" ++ f ∧ dst = dir ++ "/" ++ f
  | EvGetDirectory src _ recursive _ =>
      (src = "/home/ruwai/ruwaicom/mseed_tmp" ∧ recursive = false)
      ∨ (src = "/media/." ∧ recursive = true)
  | _ => True
  end.


(** A visit during which the device does not accept the login. *)
Definition refused_visit : World :=
  {| w_home := w_home field_visit;
     w_cwd := w_cwd field_visit;
     w_today := w_today field_visit;
     w_input := w_input field_visit;
     w_print := w_print field_visit;
     w_sleep := w_sleep field_visit;
     w_call := w_call field_visit;
     w_spawn := w_spawn field_visit;
     w_open_connection := w_open_connection field_visit;
     w_login := λ _ _ _, Raise (RemoteError "Authentication failed");
     w_execute_command := w_execute_command field_visit;
     w_list_files := w_list_files field_visit;
     w_get_file := w_get_file field_visit;
     w_get_directory := w_get_directory field_visit;
     w_mkdir := w_mkdir field_visit;
     w_files := w_files field_visit;
     w_shell := w_shell field_visit;
     w_grep := w_grep field_visit;
     w_decode := w_decode field_visit |}.



(** At most [n] events of a run satisfy [P]. *)
Definition at_most {A} (n : nat) (P : event → bool) (m : M A) : Prop :=
  ∀ w h, (List.length (List.filter P (m w h).2) ≤ n)%nat.

Definition is_wipe (ev : event) : bool :=
  match ev with EvExecute command _ => String.prefix "rm " command | _ => false end.

(** * Properties *)

Lemma bind_run {A B} (m : M A) (k : A → M B) w h :
  (m ≫= k) w h =
  match m w h with
  | (Ok a, t1) => let '(r, t2) := k a w (h ++ t1)%list in (r, (t1 ++ t2)%list)
  | (Raise e, t1) => (Raise e, t1)
  end.
Proof. reflexivity. Qed.

Lemma bind_step {A B} (m : M A) (k : A → M B) w h :
  (m ≫= k) w h =
  match (m w h).1 with
  | Ok a => after (m w h).2 (k a w (h ++ (m w h).2)%list)
  | Raise e => (Raise e, (m w h).2)
  end.
Proof.
  rewrite bind_run. destruct (m w h) as [[a|e] t1]; cbn; [|reflexivity].
  destruct (k a w (h ++ t1)%list); reflexivity.
Qed.

Lemma after_after {A} t1 t2 (x : result A * list event) :
  after t1 (after t2 x) = after (t1 ++ t2)%list x.
Proof. unfold after. cbn. by rewrite app_assoc. Qed.

Lemma after_pair {A} t1 (r : result A) t2 : after t1 (r, t2) = (r, (t1 ++ t2)%list).
Proof. reflexivity. Qed.

Lemma after_nil {A} (x : result A * list event) : after [] x = x.
Proof. by destruct x. Qed.

Lemma bind_assoc {A B C} (m : M A) (k : A → M B) (k' : B → M C) w h :
  ((m ≫= k) ≫= k') w h = (m ≫= λ a, k a ≫= k') w h.
Proof.
  rewrite !bind_run. destruct (m w h) as [[a|e] t1]; [|reflexivity].
  rewrite bind_run. destruct (k a w (h ++ t1)%list) as [[b|e] t2]; [|reflexivity].
  rewrite <- app_assoc. destruct (k' b w (h ++ t1 ++ t2)%list) as [r t3].
  by rewrite app_assoc.
Qed.

Lemma run_ret {A} (a : A) w h : (mret a : M A) w h = (Ok a, []).
Proof. reflexivity. Qed.

Ltac tidy :=
  rewrite ?run_ret, ?after_after, ?after_pair, ?after_nil, <- ?app_assoc, ?app_nil_r;
  cbn [app fst snd].

Ltac step :=
  rewrite ?bind_assoc;
  rewrite bind_step;
  cbn [fst snd logger_info print sleep subprocess_call emit input today home cwd
       open_connection login execute_command list_files_in_directory get_file
       get_directory mkdir lift mret M_ret ret];
  tidy.

Tactic Notation "step" "with" constr(H) := step; rewrite H; tidy.

(** ** Identity resolution *)

Lemma lookup_step_hit sn acc n d st :
  d !! sn = Some st → lookup_step sn (Ok acc) (n, d) = Ok (n, st).
Proof.
  intros Hd. unfold lookup_step, dict_contains, dict_getitem. cbn.
  rewrite Hd. rewrite bool_decide_eq_true_2 by eauto. reflexivity.
Qed.

Lemma lookup_step_miss sn acc e :
  e.2 !! sn = None → lookup_step sn (Ok acc) e = Ok acc.
Proof.
  intros Hd. unfold lookup_step, dict_contains. cbn.
  rewrite Hd. rewrite bool_decide_eq_false_2; [reflexivity|].
  by intros [? ?].
Qed.

Lemma foldl_lookup_miss sn acc nets :
  Forall (λ e, e.2 !! sn = None) nets →
  foldl (lookup_step sn) (Ok acc) nets = Ok acc.
Proof.
  induction 1 as [|e rest He _ IH]; cbn [foldl]; [reflexivity|].
  by rewrite lookup_step_miss.
Qed.

Lemma foldl_lookup_total sn acc nets :
  ∃ p, foldl (lookup_step sn) (Ok acc) nets = Ok p.
Proof.
  revert acc. induction nets as [|[n d] rest IH]; intros acc; cbn [foldl]; [eauto|].
  destruct (d !! sn) as [st|] eqn:Hd.
  - erewrite lookup_step_hit by eassumption. apply IH.
  - rewrite lookup_step_miss by assumption. apply IH.
Qed.

Lemma lookup_station_last sn pre n d st post :
  d !! sn = Some st → Forall (λ e, e.2 !! sn = None) post →
  lookup_station sn (pre ++ (n, d) :: post)%list = Ok (n, st).
Proof.
  intros Hd Hpost. unfold lookup_station. rewrite foldl_app. cbn [foldl].
  destruct (foldl_lookup_total sn ("unknown_network", "unknown_station") pre) as [p ->].
  erewrite lookup_step_hit by eassumption. by apply foldl_lookup_miss.
Qed.

Lemma lookup_station_none sn nets :
  Forall (λ e, e.2 !! sn = None) nets →
  lookup_station sn nets = Ok ("unknown_network", "unknown_station").
Proof. apply foldl_lookup_miss. Qed.

Lemma disjoint_serials_sound nets : disjoint_serials nets = true → unique_serials nets.
Proof.
  induction nets as [|e rest IH]; intros Hd sn i j e1 e2 Hi Hj H1 H2.
  { destruct i; discriminate Hi. }
  cbn in Hd. apply andb_prop in Hd as [Hhead Hrest].
  assert (Hsep : ∀ k e', rest !! k = Some e' → is_Some (e.2 !! sn) →
                         is_Some (e'.2 !! sn) → False).
  { intros k e' Hk He He'.
    assert (He'in : In e' rest).
    { apply list_elem_of_In. eapply list_elem_of_lookup_2. eassumption. }
    rewrite forallb_forall in Hhead. specialize (Hhead e' He'in).
    apply bool_decide_eq_true_1 in Hhead.
    apply (elem_of_dom e.2) in He. apply (elem_of_dom e'.2) in He'. set_solver. }
  destruct i as [|i], j as [|j]; cbn in Hi, Hj; simplify_eq.
  - reflexivity.
  - exfalso. eauto.
  - exfalso. eauto.
  - f_equal. eapply IH; eauto.
Qed.

Lemma unique_tail_misses sn (pre post : registry) e :
  unique_serials (pre ++ e :: post)%list → is_Some (e.2 !! sn) →
  Forall (λ e', e'.2 !! sn = None) post.
Proof.
  intros Hu He. apply Forall_lookup_2. intros k e' Hk.
  destruct (e'.2 !! sn) as [st|] eqn:He'; [exfalso|reflexivity].
  assert (H1 : (pre ++ e :: post)%list !! List.length pre = Some e).
  { by apply list_lookup_middle. }
  assert (H2 : (pre ++ e :: post)%list !! (List.length pre + S k)%nat = Some e').
  { rewrite lookup_app_r by lia.
    replace (List.length pre + S k - List.length pre)%nat with (S k) by lia.
    exact Hk. }
  assert (He'' : is_Some (e'.2 !! sn)) by eauto.
  pose proof (Hu sn _ _ _ _ H1 H2 He He''). lia.
Qed.

Lemma identify_run nets w h sn n st :
  w_execute_command w h serial_command = Ok sn →
  lookup_station sn nets = Ok (n, st) →
  identify nets w h =
  (Ok (sn, n, st),
   [EvExecute serial_command (Ok sn);
    EvLog (if st == "unknown_station" then no_fit_message
           else nl ++ "...you are at the " ++ st ++ " station (" ++ n ++ ").")]).
Proof.
  intros Hex Hl. unfold identify.
  step with Hex. step with Hl.
  destruct (st == "unknown_station"); step; reflexivity.
Qed.

(** C3, as stated, fails: with serial 00006 listed by two networks the
    loop keeps running after the first hit, and the pair it returns is
    not the first one found. *)
Lemma first_found_not_returned :
  first_found "00006" duplicated_registry = ("SBK_stations", "OBS") ∧
  lookup_station "00006" duplicated_registry ≠ Ok (first_found "00006" duplicated_registry).
Proof. split; [reflexivity|]. vm_compute. discriminate. Qed.

(** C3 (amended): when a serial is listed by more than one station
    dictionary, the lookup returns the LAST matching (network, station)
    pair in iteration order, and on no registry does it raise. *)
Theorem lookup_station_last_found sn (pre post : registry) n d st :
  d !! sn = Some st → Forall (λ e, e.2 !! sn = None) post →
  lookup_station sn (pre ++ (n, d) :: post)%list = Ok (n, st) ∧
  ∀ nets, is_ok (lookup_station sn nets) = true.
Proof.
  intros Hd Hpost. split; [by apply lookup_station_last|].
  intros nets.
  destruct (foldl_lookup_total sn ("unknown_network", "unknown_station") nets) as [p Hp].
  unfold lookup_station. by rewrite Hp.
Qed.

Lemma lookup_station_last_found_witness :
  lookup_station "00006" duplicated_registry = Ok ("KITZ_stations", "BH4") ∧
  ∀ nets, is_ok (lookup_station "00006" nets) = true.
Proof.
  apply (lookup_station_last_found "00006" [("SBK_stations", SBK_stations)]
           [("NOW_stations", NOW_stations)] "KITZ_stations").
  - vm_compute. reflexivity.
  - constructor; [vm_compute; reflexivity | constructor].
Defined.

(** C7: in a registry whose serials are unique, a registered serial
    resolves to exactly its (network, station) pair, an unregistered
    one to the sentinel pair, and in both cases the identification step
    returns normally, so the session goes on. *)
Theorem identify_unique_registry nets w h sn :
  unique_serials nets →
  w_execute_command w h serial_command = Ok sn →
  (∀ n d st, (n, d) ∈ nets → d !! sn = Some st →
     lookup_station sn nets = Ok (n, st) ∧
     (identify nets w h).1 = Ok (sn, n, st)) ∧
  (Forall (λ e, e.2 !! sn = None) nets →
     lookup_station sn nets = Ok ("unknown_network", "unknown_station") ∧
     identify nets w h =
       (Ok (sn, "unknown_network", "unknown_station"),
        [EvExecute serial_command (Ok sn); EvLog no_fit_message])).
Proof.
  intros Hu Hex. split.
  - intros n d st Hin Hd.
    apply list_elem_of_split in Hin as (pre & post & ->).
    assert (Hl : lookup_station sn (pre ++ (n, d) :: post)%list = Ok (n, st)).
    { apply lookup_station_last; [assumption|].
      eapply unique_tail_misses; [eassumption|]. cbn. eauto. }
    split; [assumption|]. by rewrite (identify_run _ _ _ _ _ _ Hex Hl).
  - intros Hnone. pose proof (lookup_station_none sn nets Hnone) as Hl.
    split; [assumption|]. by rewrite (identify_run _ _ _ _ _ _ Hex Hl).
Qed.

Lemma identify_unique_registry_witness :
  unique_serials networks ∧
  lookup_station "00006" networks = Ok ("SBK_stations", "OBS") ∧
  (identify networks field_visit []).1 = Ok ("00006", "SBK_stations", "OBS").
Proof.
  assert (Hu : unique_serials networks).
  { apply disjoint_serials_sound. vm_compute. reflexivity. }
  split; [exact Hu|].
  destruct (identify_unique_registry networks field_visit [] "00006" Hu eq_refl) as [Hreg _].
  apply (Hreg "SBK_stations" SBK_stations "OBS").
  - apply list_elem_of_here.
  - vm_compute. reflexivity.
Defined.

(** ** The serial is looked up as it was received *)

Lemma registered_serials_are_stripped sn :
  is_Some (SBK_stations !! sn) ∨ is_Some (KITZ_stations !! sn) ∨ is_Some (NOW_stations !! sn) →
  py_strip_str sn = sn.
Proof.
  assert (Hkeys : ∀ (l : list (string * string)) (d : gmap string string),
             d = list_to_map l → is_Some (d !! sn) → sn ∈ l.*1).
  { intros l d -> [st Hst]. apply list_elem_of_fmap.
    exists (sn, st). split; [reflexivity|]. by apply elem_of_list_to_map_2. }
  intros [H|[H|H]]; eapply Hkeys in H; try reflexivity; cbn in H;
    repeat (apply elem_of_cons in H as [->|H]; [vm_compute; reflexivity|]);
    by apply elem_of_nil in H.
Qed.

Lemma unstripped_serial_misses sn :
  py_strip_str sn ≠ sn → Forall (λ e, e.2 !! sn = None) networks.
Proof.
  intros Hne.
  assert (Hmiss : ∀ d : gmap string string,
             (is_Some (d !! sn) → py_strip_str sn = sn) → d !! sn = None).
  { intros d Hd. destruct (d !! sn) eqn:E; [|reflexivity]. exfalso. eauto. }
  repeat constructor; cbn; apply Hmiss; intros H;
    apply registered_serials_are_stripped; auto.
Qed.

(** C6, as stated, fails: a serial that arrives with a leading blank
    would resolve if it were stripped, but the script looks it up as it
    is and falls back to the sentinel pair. *)
Lemma serial_lookup_is_untrimmed :
  lookup_station (py_strip_str " 00006") networks = Ok ("SBK_stations", "OBS") ∧
  (identify networks (quiet_world " 00006" growing "1" "3" (Date 2024 3 1) []) []).1
  = Ok (" 00006", "unknown_network", "unknown_station").
Proof. split; vm_compute; reflexivity. Qed.

(** C6 (amended): the output of the remote serial query is the lookup
    key exactly as received; nothing strips it.  With the shipped
    registry, a serial that carries leading or trailing whitespace is
    therefore identified as the sentinel pair. *)
Theorem unstripped_serial_is_unknown w h sn :
  w_execute_command w h serial_command = Ok sn →
  py_strip_str sn ≠ sn →
  identify networks w h =
    (Ok (sn, "unknown_network", "unknown_station"),
     [EvExecute serial_command (Ok sn); EvLog no_fit_message]).
Proof.
  intros Hex Hne.
  pose proof (lookup_station_none sn networks (unstripped_serial_misses sn Hne)) as Hl.
  by rewrite (identify_run _ _ _ _ _ _ Hex Hl).
Qed.

Lemma unstripped_serial_is_unknown_witness :
  py_strip_str " 00006" ≠ " 00006" ∧
  identify networks (quiet_world " 00006" growing "1" "3" (Date 2024 3 1) []) [] =
    (Ok (" 00006", "unknown_network", "unknown_station"),
     [EvExecute serial_command (Ok " 00006"); EvLog no_fit_message]).
Proof.
  assert (Hne : py_strip_str " 00006" ≠ " 00006") by (vm_compute; discriminate).
  split; [exact Hne|].
  apply (unstripped_serial_is_unknown _ [] " 00006"); [reflexivity | exact Hne].
Defined.

(** ** Log harvest *)

Lemma py_split_head sep f : ∃ segs, py_split sep f = head_segment sep f :: segs.
Proof.
  induction f as [|c f [segs IH]]; cbn; [eauto|].
  destruct (Ascii.eqb c sep); [eauto|]. rewrite IH. eauto.
Qed.

Lemma append_cons c (s t : string) : String c s ++ t = String c (s ++ t).
Proof. reflexivity. Qed.

Lemma append_nil (t : string) : EmptyString ++ t = t.
Proof. reflexivity. Qed.

Lemma append_empty_r (s : string) : s ++ EmptyString = s.
Proof. induction s as [|c s IH]; [reflexivity|]. by rewrite append_cons, IH. Qed.

Lemma append_assoc' (a b c : string) : (a ++ b) ++ c = a ++ b ++ c.
Proof. induction a as [|x a IH]; [reflexivity|]. by rewrite !append_cons, IH. Qed.

Lemma prefix_spec p f : String.prefix p f = true ↔ ∃ rest, f = p ++ rest.
Proof.
  revert f. induction p as [|a p IH]; intros f; rewrite ?append_cons, ?append_nil.
  - split; [intros _; by exists f | intros _; by destruct f].
  - destruct f as [|b f]; cbn; [split; [discriminate | intros [? [=]]]|].
    destruct (ascii_dec a b) as [->|Hne].
    + rewrite IH. split; intros [rest Hr]; exists rest;
        rewrite ?append_cons in *; congruence.
    + split; [discriminate | intros [? [=]]; congruence].
Qed.

Lemma prefix_nil f : String.prefix EmptyString f = true.
Proof. by destruct f. Qed.

Lemma head_segment_token t f :
  Forall (λ c, Ascii.eqb c "." = false) (list_ascii_of_string t) →
  (head_segment "." f == t) = (f == t) || String.prefix (t ++ ".") f.
Proof.
  revert f. induction t as [|a t IH]; intros f Hdots;
    rewrite ?append_cons, ?append_nil.
  - destruct f as [|c f]; [reflexivity|].
    cbn [head_segment String.eqb String.prefix orb].
    destruct (ascii_dec "." c) as [<-|Hne]; [by rewrite prefix_nil|].
    destruct (Ascii.eqb_spec c "."); [congruence | reflexivity].
  - cbn in Hdots. apply Forall_cons in Hdots as [Ha Ht].
    destruct f as [|c f]; [reflexivity|].
    cbn [head_segment String.eqb String.prefix].
    destruct (Ascii.eqb_spec c ".") as [->|Hc].
    + rewrite Ascii.eqb_sym, Ha. cbn [String.eqb orb].
      destruct (ascii_dec a ".") as [->|?]; [discriminate Ha | reflexivity].
    + cbn [String.eqb]. rewrite IH by assumption.
      destruct (ascii_dec a c) as [->|Hne].
      * rewrite Ascii.eqb_refl. reflexivity.
      * destruct (Ascii.eqb_spec c a); [congruence | reflexivity].
Qed.

Lemma select_logs_filter all_logs :
  select_logs all_logs = Ok (List.filter is_ruwai_name all_logs).
Proof.
  induction all_logs as [|f rest IH]; [reflexivity|].
  cbn [select_logs List.filter].
  destruct (py_split_head "." f) as [segs ->]. cbn [py_first rbind].
  rewrite IH. cbn [rbind]. unfold is_ruwai_name.
  rewrite (head_segment_token "ruwai" f) by (repeat constructor). reflexivity.
Qed.

Lemma for_each_ok {A} (body : A → M unit) (ev : A → event) w l :
  (∀ x h, body x w h = (Ok tt, [ev x])) →
  ∀ h, for_each l body w h = (Ok tt, map ev l).
Proof.
  intros Hbody. induction l as [|x l IH]; intros h; [reflexivity|].
  cbn [for_each map]. rewrite bind_step, Hbody. cbn [fst snd].
  rewrite IH. reflexivity.
Qed.

Lemma is_ruwai_name_spec f :
  is_ruwai_name f = true ↔ f = "ruwai" ∨ ∃ rest, f = "ruwai." ++ rest.
Proof.
  unfold is_ruwai_name. rewrite orb_true_iff, String.eqb_eq, prefix_spec. reflexivity.
Qed.

(** C2, as stated, fails on its own example: the first segment of
    [ruwaicom.txt] is [ruwaicom], not [ruwai], so that file is not
    among the selected ones. *)
Lemma ruwaicom_not_selected :
  select_logs var_log_listing ≠ Ok ["ruwai.log"; "ruwai.log.1"; "ruwaicom.txt"].
Proof. vm_compute. discriminate. Qed.

(** C2 (amended): the harvest copies exactly the listed entries whose
    text before the first dot is [ruwai], in listing order; for the
    listing ruwai.log, ruwai.log.1, system.log, ruwaicom.txt these are
    ruwai.log and ruwai.log.1. *)
Theorem harvest_selects_first_segment w h log_dest all_logs :
  w_list_files w h "/var/log/" = Ok all_logs →
  (∀ h' src dst, w_get_file w h' src dst = Ok tt) →
  select_logs all_logs = Ok (List.filter is_ruwai_name all_logs) ∧
  (∀ f, is_ruwai_name f = true ↔
        head_segment "." f = "ruwai" ∧ (f = "ruwai" ∨ ∃ rest, f = "ruwai." ++ rest)) ∧
  download_logs log_dest w h =
    (Ok tt,
     EvListFiles "/var/log/" (Ok all_logs)
     :: map (copy_event log_dest) (List.filter is_ruwai_name all_logs)
     ++ [EvLog (nl ++ "...all Ruwai log-files downloaded to " ++ log_dest ++ "/.")])%list ∧
  select_logs var_log_listing = Ok ["ruwai.log"; "ruwai.log.1"].
Proof.
  intros Hlist Hget. split; [apply select_logs_filter|]. split; [|split; [|reflexivity]].
  - intros f. rewrite <- is_ruwai_name_spec. split; [|tauto].
    intros Hf. split; [|assumption]. apply String.eqb_eq.
    rewrite (head_segment_token "ruwai" f) by (repeat constructor). exact Hf.
  - unfold download_logs. step with Hlist. step. rewrite select_logs_filter. tidy.
    rewrite bind_step.
    rewrite (for_each_ok _ (copy_event log_dest)).
    + cbn [fst snd]. tidy. reflexivity.
    + intros f h'. unfold get_file, copy_event. by rewrite Hget.
Qed.

Lemma harvest_selects_first_segment_witness :
  (download_logs "/srv/archive/var_log" field_visit []).2 =
    [EvListFiles "/var/log/" (Ok var_log_listing);
     copy_event "/srv/archive/var_log" "ruwai.log";
     copy_event "/srv/archive/var_log" "ruwai.log.1";
     EvLog (nl ++ "...all Ruwai log-files downloaded to /srv/archive/var_log/.")].
Proof.
  destruct (harvest_selects_first_segment field_visit [] "/srv/archive/var_log"
              var_log_listing eq_refl (λ _ _ _, eq_refl)) as (_ & _ & -> & _).
  reflexivity.
Defined.

(** ** Activity sampler *)

(** C9: the sampler asks for the size of the same directory,
    [/home/ruwai/ruwaicom/mseed_tmp], exactly twice, with exactly one
    wait of 10 seconds in between; it reports each sample right after
    reading it, and then reports logging as active exactly when the
    second sample is strictly greater than the first.  Samples 100
    then 150 are reported as logging; 150 then 100, and 100 then 100,
    as not logging. *)
Theorem activity_sampler_verdict w h o1 o2 s1 s2 :
  w_execute_command w (h ++ sampler_header)%list
    "du -s /home/ruwai/ruwaicom/mseed_tmp | cut -f1" = Ok o1 →
  py_int o1 = Ok s1 →
  w_sleep w (h ++ sampler_header ++ sample_events o1 s1)%list 10 = Ok tt →
  w_execute_command w
    (h ++ sampler_header ++ sample_events o1 s1 ++ [EvSleep 10 (Ok tt)])%list
    "du -s /home/ruwai/ruwaicom/mseed_tmp | cut -f1" = Ok o2 →
  py_int o2 = Ok s2 →
  activity_sampler w h =
    (Ok (s1 <? s2),
     sampler_header ++ sample_events o1 s1 ++ [EvSleep 10 (Ok tt)] ++ sample_events o2 s2
     ++ [EvLog (nl ++ rule);
         EvLog (if s1 <? s2 then "Ruwai IS logging :) " else "Ruwai is NOT logging :(");
         EvLog rule])%list ∧
  ((s1 <? s2) = true ↔ s1 < s2) ∧
  sample_events "100" 100
  = [EvExecute "du -s /home/ruwai/ruwaicom/mseed_tmp | cut -f1" (Ok "100");
     EvLog "The current size of the mseed_tmp/ directory is 100 kB."] ∧
  (py_int "100" = Ok 100 ∧ py_int "150" = Ok 150) ∧
  (activity_sampler (two_samples "100" "150") []).1 = Ok true ∧
  In (EvLog "Ruwai IS logging :) ") (activity_sampler (two_samples "100" "150") []).2 ∧
  (activity_sampler (two_samples "150" "100") []).1 = Ok false ∧
  In (EvLog "Ruwai is NOT logging :(") (activity_sampler (two_samples "150" "100") []).2 ∧
  (activity_sampler (two_samples "100" "100") []).1 = Ok false ∧
  In (EvLog "Ruwai is NOT logging :(") (activity_sampler (two_samples "100" "100") []).2.
Proof.
  intros H1 P1 Hs H2 P2.
  split; [|split; [apply Z.ltb_lt | repeat split; try (vm_compute; tauto)]].
  unfold sampler_header, sample_events in *. cbn [app] in *.
  unfold activity_sampler, du_command, size_message.
  do 3 step. step with H1. step with P1. step. step with Hs. step with H2. step with P2. step.
  unfold logging_message. destruct (s1 <? s2); do 3 step; reflexivity.
Qed.

Lemma activity_sampler_verdict_witness :
  activity_sampler field_visit [] =
    (Ok true,
     sampler_header ++ sample_events "100" 100 ++ [EvSleep 10 (Ok tt)]
     ++ sample_events "150" 150
     ++ [EvLog (nl ++ rule); EvLog "Ruwai IS logging :) "; EvLog rule])%list.
Proof.
  exact (proj1 (activity_sampler_verdict field_visit [] "100" "150" 100 150
                  eq_refl eq_refl eq_refl eq_refl eq_refl)).
Defined.

(** ** What a script can emit *)

Lemma emits_ret {A} P (a : A) : emits P (mret a).
Proof. intros w h. constructor. Qed.

Lemma emits_lift {A} P (r : result A) : emits P (lift r).
Proof. intros w h. constructor. Qed.

Lemma emits_home P : (∀ r, P (EvHome r)) → emits P home.
Proof. intros H w h. repeat constructor. apply H. Qed.

Lemma emits_cwd P : (∀ r, P (EvCwd r)) → emits P cwd.
Proof. intros H w h. repeat constructor. apply H. Qed.

Lemma emits_print P msg : (∀ r, P (EvPrint msg r)) → emits P (print msg).
Proof. intros H w h. repeat constructor. apply H. Qed.

Lemma emits_sleep P secs : (∀ r, P (EvSleep secs r)) → emits P (sleep secs).
Proof. intros H w h. repeat constructor. apply H. Qed.

Lemma emits_call P command :
  (∀ r, P (EvCall command r)) → emits P (subprocess_call command).
Proof. intros H w h. repeat constructor. apply H. Qed.

Lemma emits_decode P line : emits P (decode line).
Proof. intros w h. constructor. Qed.

Lemma emits_bind {A B} P (m : M A) (k : A → M B) :
  emits P m → (∀ a, emits P (k a)) → emits P (m ≫= k).
Proof.
  intros Hm Hk w h. rewrite bind_step. specialize (Hm w h).
  destruct (m w h) as [[a|e] t1]; cbn [fst snd] in *; [|assumption].
  unfold after. cbn [snd]. apply Forall_app. split; [assumption | apply Hk].
Qed.

Lemma emits_emit P ev : P ev → emits P (emit ev).
Proof. intros H w h. repeat constructor. exact H. Qed.

Lemma emits_input P prompt : (∀ r, P (EvInput prompt r)) → emits P (input prompt).
Proof. intros H w h. repeat constructor. apply H. Qed.

Lemma emits_today P : (∀ d, P (EvToday d)) → emits P today.
Proof. intros H w h. repeat constructor. apply H. Qed.

Lemma emits_open_connection P host :
  (∀ r, P (EvOpenConnection host r)) → emits P (open_connection host).
Proof. intros H w h. repeat constructor. apply H. Qed.

Lemma emits_login P usr pw : (∀ r, P (EvLogin usr pw r)) → emits P (login usr pw).
Proof. intros H w h. repeat constructor. apply H. Qed.

Lemma emits_execute P command :
  (∀ r, P (EvExecute command r)) → emits P (execute_command command).
Proof. intros H w h. repeat constructor. apply H. Qed.

Lemma emits_list_files P dir :
  (∀ r, P (EvListFiles dir r)) → emits P (list_files_in_directory dir).
Proof. intros H w h. repeat constructor. apply H. Qed.

Lemma emits_get_file P src dst :
  (∀ r, P (EvGetFile src dst r)) → emits P (get_file src dst).
Proof. intros H w h. repeat constructor. apply H. Qed.

Lemma emits_get_directory P src dst rec :
  (∀ r, P (EvGetDirectory src dst rec r)) → emits P (get_directory src dst rec).
Proof. intros H w h. repeat constructor. apply H. Qed.

Lemma emits_mkdir P p : (∀ r, P (EvMkdir (path_str p) r)) → emits P (mkdir p).
Proof. intros H w h. repeat constructor. apply H. Qed.

Lemma emits_popen P f s :
  (∀ r, P (EvPopen (grep_command f s) r)) → emits P (popen_stdout f s).
Proof. intros H w h. repeat constructor. apply H. Qed.

Lemma emits_for_each {A} P (l : list A) (body : A → M unit) :
  (∀ x, emits P (body x)) → emits P (for_each l body).
Proof.
  intros Hbody. induction l as [|x l IH]; cbn [for_each]; [apply emits_ret|].
  apply emits_bind; auto.
Qed.

(** [emits_with side] walks through a script; [side] proves [P] for
    each event met on the way. *)
Ltac emits_with side :=
  lazymatch goal with
  | |- emits _ (_ ≫= _) => apply emits_bind; [|intros ?]; emits_with side
  | |- emits _ (if ?b then _ else _) => destruct b; emits_with side
  | |- emits _ (match ?x with (_, _) => _ end) => destruct x; emits_with side
  | |- emits _ (mret _) => apply emits_ret
  | |- emits _ (lift _) => apply emits_lift
  | |- emits _ home => apply emits_home; intros ?; side
  | |- emits _ cwd => apply emits_cwd; intros ?; side
  | |- emits _ (decode _) => apply emits_decode
  | |- emits _ (for_each _ _) => apply emits_for_each; intros ?; emits_with side
  | |- emits _ (logger_info _) => apply emits_emit; side
  | |- emits _ (print _) => apply emits_print; intros ?; side
  | |- emits _ (sleep _) => apply emits_sleep; intros ?; side
  | |- emits _ (subprocess_call _) => apply emits_call; intros ?; side
  | |- emits _ (input _) => apply emits_input; intros ?; side
  | |- emits _ today => apply emits_today; intros ?; side
  | |- emits _ (open_connection _) => apply emits_open_connection; intros ?; side
  | |- emits _ (login _ _) => apply emits_login; intros ?; side
  | |- emits _ (execute_command _) => apply emits_execute; intros ?; side
  | |- emits _ (list_files_in_directory _) => apply emits_list_files; intros ?; side
  | |- emits _ (get_file _ _) => apply emits_get_file; intros ?; side
  | |- emits _ (get_directory _ _ _) => apply emits_get_directory; intros ?; side
  | |- emits _ (mkdir _) => apply emits_mkdir; intros ?; side
  | |- emits _ (popen_stdout _ _) => apply emits_popen; intros ?; side
  | |- emits _ (?f _ _ _) => unfold f; emits_with side
  | |- emits _ (?f _ _) => unfold f; emits_with side
  | |- emits _ (?f _) => unfold f; emits_with side
  | |- emits _ ?f => unfold f; emits_with side
  end.

(** ** Runs that stop at an event *)

Lemma app_split {A} (t1 t2 pre : list A) ev post :
  (t1 ++ t2 = pre ++ ev :: post)%list →
  (∃ post1, t1 = pre ++ ev :: post1 ∧ post = post1 ++ t2)%list ∨
  (∃ pre2, pre = t1 ++ pre2 ∧ t2 = pre2 ++ ev :: post)%list.
Proof.
  revert pre. induction t1 as [|x t1 IH]; intros pre Heq; cbn in Heq.
  - right. exists pre. auto.
  - destruct pre as [|y pre]; cbn in Heq; injection Heq as -> Heq.
    + left. exists t1. auto.
    + destruct (IH pre Heq) as [(post1 & -> & ->)|(pre2 & -> & ->)].
      * left. exists post1. auto.
      * right. exists pre2. auto.
Qed.

Lemma no_bad_event {A} (bad : event → option exn) (m : M A) w h pre ev post e :
  emits (λ ev, bad ev = None) m →
  (m w h).2 = (pre ++ ev :: post)%list → bad ev = Some e → False.
Proof.
  intros Hm Ht Hbad. specialize (Hm w h). rewrite Ht in Hm.
  apply Forall_app in Hm as [_ Hm]. apply Forall_cons in Hm as [Hm _]. congruence.
Qed.

Lemma aborts_quiet {A} (bad : event → option exn) P (m : M A) :
  emits (λ ev, bad ev = None) m → aborts_at bad P m.
Proof. intros Hm w h pre ev post e Ht Hbad. exfalso. eauto using no_bad_event. Qed.

Lemma aborts_bind_l {A B} (bad : event → option exn) P (m : M A) (k : A → M B) :
  aborts_at bad P m → (∀ a, emits (λ ev, bad ev = None) (k a)) →
  aborts_at bad P (m ≫= k).
Proof.
  intros Hm Hk w h pre ev post e. rewrite bind_step.
  specialize (Hm w h pre ev). destruct (m w h) as [[a|e1] t1]; cbn [fst snd] in *.
  - unfold after. cbn [fst snd]. intros Ht Hbad.
    apply app_split in Ht as [(post1 & -> & ->)|(pre2 & -> & Ht)].
    + destruct (Hm post1 e eq_refl Hbad) as (_ & _ & [=]).
    + exfalso. eauto using no_bad_event.
  - intros Ht Hbad. destruct (Hm post e Ht Hbad) as (Hpre & Hpost & [= ->]). auto.
Qed.

Lemma aborts_bind_r {A B} (bad : event → option exn) P (m : M A) (k : A → M B) :
  emits (λ ev, bad ev = None ∧ P ev) m → (∀ a, aborts_at bad P (k a)) →
  aborts_at bad P (m ≫= k).
Proof.
  intros Hm Hk w h pre ev post e. rewrite bind_step.
  specialize (Hm w h). destruct (m w h) as [[a|e1] t1]; cbn [fst snd] in *.
  - unfold after. cbn [fst snd]. intros Ht Hbad.
    apply app_split in Ht as [(post1 & -> & ->)|(pre2 & -> & Ht)].
    + apply Forall_app in Hm as [_ Hm]. apply Forall_cons in Hm as [[Hm _] _]. congruence.
    + destruct (Hk a w (h ++ t1)%list pre2 ev post e Ht Hbad) as (Hpre & -> & Hr).
      split; [|split; [reflexivity | assumption]].
      apply Forall_app. split; [|assumption].
      eapply Forall_impl; [exact Hm|]. by intros ? [_ ?].
  - intros -> Hbad. apply Forall_app in Hm as [_ Hm].
    apply Forall_cons in Hm as [[Hm _] _]. congruence.
Qed.

(** [int(ssh.execute_command(du_command))] followed by the rest of the
    script. *)
Lemma aborts_sample {A} (P : event → Prop) (k : Z → M A) :
  (∀ r, P (EvExecute du_command r)) →
  (∀ s, aborts_at bad_sample P (k s)) →
  aborts_at bad_sample P (execute_command du_command ≫= λ o, lift (py_int o) ≫= k).
Proof.
  intros HP Hk w h pre ev post e. step.
  destruct (w_execute_command w h du_command) as [o|e1] eqn:Hex;
    cbn [fst snd]; rewrite ?after_pair.
  - step. destruct (py_int o) as [s|e2] eqn:Hint; tidy.
    + unfold after. cbn [fst snd]. intros Ht Hbad.
      destruct pre as [|x pre]; cbn in Ht; injection Ht as <- Ht.
      * cbn in Hbad. rewrite Hint in Hbad. discriminate.
      * destruct (Hk s w _ pre ev post e Ht Hbad) as (Hpre & -> & Hr).
        split; [|split; [reflexivity | assumption]]. constructor; auto.
    + intros Ht Hbad.
      destruct pre as [|x pre]; cbn in Ht; injection Ht as <- Ht.
      * cbn in Hbad. rewrite Hint in Hbad. injection Hbad as <-.
        subst post. auto.
      * by destruct pre.
  - intros Ht Hbad. destruct pre as [|x pre]; cbn in Ht; injection Ht as <- Ht.
    + discriminate Hbad.
    + by destruct pre.
Qed.

Ltac quiet := emits_with ltac:(first [reflexivity | split; reflexivity]).

Lemma activity_sampler_aborts :
  aborts_at bad_sample (λ ev, is_popen ev = false) activity_sampler.
Proof.
  unfold activity_sampler.
  do 3 (apply aborts_bind_r; [quiet | intros _]).
  apply aborts_sample; [reflexivity | intros s1].
  do 2 (apply aborts_bind_r; [quiet | intros _]).
  apply aborts_sample; [reflexivity | intros s2].
  apply aborts_quiet. quiet.
Qed.

Lemma status_checks_aborts log_dest :
  aborts_at bad_sample (λ ev, is_popen ev = false) (status_checks log_dest).
Proof.
  unfold status_checks.
  do 3 (apply aborts_bind_r; [quiet | intros _]).
  apply aborts_bind_r; [quiet | intros pid].
  apply aborts_bind_r; [quiet | intros _].
  apply aborts_bind_l; [apply activity_sampler_aborts | intros _; quiet].
Qed.

Lemma session_aborts nets :
  aborts_at bad_sample (λ ev, is_popen ev = false) (session_with nets).
Proof.
  unfold session_with. apply aborts_bind_l; [|intros ld; quiet].
  unfold service.
  do 2 (apply aborts_bind_r; [quiet | intros _]).
  apply aborts_bind_r; [quiet | intros [[sn network] station]].
  apply aborts_bind_r; [quiet | intros [local_dest log_dest]].
  apply aborts_bind_r; [quiet | intros _].
  apply aborts_bind_l; [apply status_checks_aborts | intros _; quiet].
Qed.

(** C4, as stated, fails: when the size query prints nothing, [int]
    raises and nobody catches it; the session ends there, before any
    status extraction. *)
Lemma empty_sample_ends_session :
  (session silent_visit []).1 = Raise (ValueError EmptyString) ∧
  last (session silent_visit []).2 = Some (EvExecute du_command (Ok EmptyString)) ∧
  existsb is_popen (session silent_visit []).2 = false.
Proof. vm_compute. repeat split. Qed.

(** C4 (amended): if a size query of the activity sampler is answered
    with something that is not an integer, the [ValueError] of [int] is
    not caught: the query is the last event of the whole session, which
    ends with that exception; no verdict is logged, and the status
    extractor has not run and does not run. *)
Theorem malformed_sample_ends_session nets w h pre out post e :
  (session_with nets w h).2 = (pre ++ EvExecute du_command (Ok out) :: post)%list →
  py_int out = Raise e →
  post = [] ∧
  (session_with nets w h).1 = Raise e ∧
  Forall (λ ev, is_popen ev = false) pre.
Proof.
  intros Ht Hint.
  destruct (session_aborts nets w h pre _ post e Ht) as (Hpre & Hpost & Hr); [|auto].
  cbn. by rewrite Hint.
Qed.

Lemma malformed_sample_ends_session_witness :
  (session silent_visit []).1 = Raise (ValueError EmptyString).
Proof.
  refine (proj1 (proj2 (malformed_sample_ends_session networks silent_visit []
            (removelast (session silent_visit []).2) EmptyString [] _ _ eq_refl))).
  vm_compute. reflexivity.
Defined.

(** ** Download options *)

Lemma unrecognized_option_run w h local_dest option :
  option ≠ "0" → option ≠ "1" → option ≠ "2" → option ≠ "3" →
  download_option option local_dest w h = (Ok tt, []).
Proof.
  intros H0 H1 H2 H3. unfold download_option.
  apply String.eqb_neq in H0, H1, H2, H3. rewrite H0, H1, H2, H3. reflexivity.
Qed.

(** C5, as stated, fails: after an answer that is none of the offered
    options nothing at all is written to the run log, so the log does
    not record an unrecognized option. *)
Lemma unrecognized_option_not_logged :
  (data_download "/srv/archive" mistyped_visit []).2
  = [EvLog download_banner; EvInput download_prompt (Ok "4")] ∧
  ¬ ∃ msg, In (EvLog msg) (download_option "4" "/srv/archive" mistyped_visit []).2.
Proof. split; [reflexivity|]. intros [msg []]. Qed.

(** C5 (amended): for every answer to the download prompt other than
    "0", "1", "2" and "3" the script fetches nothing, deletes nothing
    and logs nothing; such a run differs in the log from the
    deliberate choice "0" only by the absence of that choice's
    message. *)
Theorem unrecognized_option_is_silent w h local_dest option :
  w_input w (h ++ [EvLog download_banner])%list download_prompt = Ok option →
  option ≠ "0" → option ≠ "1" → option ≠ "2" → option ≠ "3" →
  data_download local_dest w h
  = (Ok tt, [EvLog download_banner; EvInput download_prompt (Ok option)]) ∧
  download_option "0" local_dest w h
  = (Ok tt, [EvLog ("You chose download option 0:" ++ nl
                    ++ "Continue without any data download." ++ nl ++ nl)]).
Proof.
  intros Hin H0 H1 H2 H3. split; [|reflexivity].
  unfold data_download. step. step with Hin.
  rewrite unrecognized_option_run by assumption. reflexivity.
Qed.

Lemma unrecognized_option_is_silent_witness :
  data_download "/srv/archive" mistyped_visit []
  = (Ok tt, [EvLog download_banner; EvInput download_prompt (Ok "4")]).
Proof.
  refine (proj1 (unrecognized_option_is_silent mistyped_visit [] "/srv/archive" "4"
                   eq_refl _ _ _ _)); discriminate.
Defined.

(** ** Deletion comes after the copy *)

Section Guarded.
Variable g : event → bool.

Lemma guarded_mono t : guarded g false t = true → guarded g true t = true.
Proof.
  induction t as [|ev t IH]; cbn; [reflexivity|].
  destruct (is_delete ev); cbn; [discriminate|].
  destruct (g ev); auto.
Qed.

Lemma guarded_after_quiet seen t1 t2 :
  Forall (λ ev, is_delete ev = false) t1 →
  guarded g seen t2 = true → guarded g seen (t1 ++ t2) = true.
Proof.
  intros Hq. revert seen. induction Hq as [|ev t1 Hev _ IH]; intros seen H2; cbn.
  - exact H2.
  - rewrite Hev. apply IH. destruct seen; cbn; [assumption|].
    destruct (g ev); [by apply guarded_mono | assumption].
Qed.

Lemma guarded_sound seen t pre ev post :
  guarded g seen t = true → t = (pre ++ ev :: post)%list → is_delete ev = true →
  seen || existsb g pre = true.
Proof.
  revert seen t. induction pre as [|x pre IH]; intros seen t Hg -> Hdel; cbn in Hg.
  - rewrite Hdel in Hg. apply andb_prop in Hg as [-> _]. reflexivity.
  - cbn [existsb]. destruct (is_delete x).
    + apply andb_prop in Hg as [-> _]. reflexivity.
    + specialize (IH _ _ Hg eq_refl Hdel). by rewrite orb_assoc.
Qed.
End Guarded.

Ltac answer :=
  match goal with
  | |- context [match ?r with Ok _ => _ | Raise _ => _ end] =>
      destruct r as [?|?]; tidy
  end.

(** Going through a script whatever the collaborators answer. *)
Ltac walk := repeat first [step | answer].

Lemma download_and_finish_guarded local_dest w h :
  let t := ((data_download local_dest;; finish_up local_dest) w h).2 in
  guarded fetched_media false t = true ∧
  guarded chose_wipe false t = true ∧
  existsb is_delete t && existsb failed_fetch t = false.
Proof.
  cbv zeta. unfold data_download, finish_up, download_option. step. step.
  destruct (w_input w (h ++ [EvLog download_banner])%list download_prompt) as [option|e];
    tidy; [|repeat split].
  destruct (option == "0") eqn:E0; [walk; repeat split|].
  destruct (option == "1") eqn:E1; [walk; repeat split|].
  destruct (option == "2") eqn:E2; [walk; repeat split|].
  destruct (option == "3") eqn:E3; [|walk; repeat split].
  apply String.eqb_eq in E3 as ->. walk; repeat split.
Qed.

Lemma service_quiet nets :
  emits (λ ev, is_delete ev = false ∧ failed_fetch ev = false) (service nets).
Proof. emits_with ltac:(split; reflexivity). Qed.

Lemma existsb_false_Forall {A} (f : A → bool) l :
  existsb f l = false → Forall (λ x, f x = false) l.
Proof.
  induction l as [|x l IH]; cbn; [constructor|].
  intros H. apply orb_false_elim in H as [Hx Hl]. constructor; auto.
Qed.

Lemma fetched_media_inv ev :
  fetched_media ev = true → ∃ dst, ev = EvGetDirectory "/media/." dst true (Ok tt).
Proof.
  destruct ev as [| | | | | | | | | | | |src dst rec [[]|]| | |]; try discriminate. cbn.
  intros H. apply andb_prop in H as [Hsrc ->]. apply String.eqb_eq in Hsrc as ->. eauto.
Qed.

Lemma chose_wipe_inv ev : chose_wipe ev = true → ev = EvInput download_prompt (Ok "3").
Proof.
  destruct ev as [| |prompt [answer|]| | | | | | | | | | | | |]; try discriminate.
  cbn -[download_prompt].
  intros H. apply andb_prop in H as [Hp Ha].
  apply String.eqb_eq in Hp as ->. apply String.eqb_eq in Ha as ->. reflexivity.
Qed.

(** C1: in every run of the session, a remote deletion is sent only
    after the operator chose option 3 and the recursive fetch of the
    media mount point has returned successfully; a run that sends a
    deletion contains no failed fetch, and when the fetch of option 3
    raises, that fetch is the only thing the download step does. *)
Theorem wipe_only_after_copy nets w h pre ev post :
  (session_with nets w h).2 = (pre ++ ev :: post)%list →
  is_delete ev = true →
  In (EvInput download_prompt (Ok "3")) pre ∧
  (∃ dst, In (EvGetDirectory "/media/." dst true (Ok tt)) pre) ∧
  Forall (λ ev', failed_fetch ev' = false) (session_with nets w h).2 ∧
  (∀ w' h' dst e, w_get_directory w' h' "/media/." dst true = Raise e →
     download_option "3" dst w' h'
     = (Raise e, [EvGetDirectory "/media/." dst true (Raise e)])).
Proof.
  intros Ht Hdel.
  assert (Hfault : ∀ w' h' dst e, w_get_directory w' h' "/media/." dst true = Raise e →
     download_option "3" dst w' h'
     = (Raise e, [EvGetDirectory "/media/." dst true (Raise e)])).
  { intros w' h' dst e He. unfold download_option. cbn [String.eqb Ascii.eqb].
    cbn. step with He. reflexivity. }
  revert Ht. unfold session_with. rewrite bind_step.
  pose proof (service_quiet nets w h) as Hq.
  destruct (service nets w h) as [[ld|e] t1]; cbn [fst snd] in *.
  - unfold after. cbn [snd].
    destruct (download_and_finish_guarded ld w (h ++ t1)%list) as (Hf & Hc & Hx).
    cbv zeta in Hf, Hc, Hx.
    set (t2 := ((data_download ld;; finish_up ld) w (h ++ t1)%list).2) in *.
    intros Ht.
    assert (Hq1 : Forall (λ ev, is_delete ev = false) t1).
    { eapply Forall_impl; [exact Hq|]. by intros ? [? _]. }
    assert (Hq2 : Forall (λ ev, failed_fetch ev = false) t1).
    { eapply Forall_impl; [exact Hq|]. by intros ? [_ ?]. }
    pose proof (guarded_sound _ _ _ _ _ _
                  (guarded_after_quiet fetched_media false t1 t2 Hq1 Hf) Ht Hdel) as H1.
    pose proof (guarded_sound _ _ _ _ _ _
                  (guarded_after_quiet chose_wipe false t1 t2 Hq1 Hc) Ht Hdel) as H2.
    cbn [orb] in H1, H2.
    apply existsb_exists in H1 as (x1 & Hx1 & Hg1).
    apply existsb_exists in H2 as (x2 & Hx2 & Hg2).
    apply fetched_media_inv in Hg1 as [dst ->]. apply chose_wipe_inv in Hg2 as ->.
    split; [assumption|]. split; [eauto|]. split; [|assumption].
    apply Forall_app. split; [assumption|]. apply existsb_false_Forall.
    assert (Hin : In ev (t1 ++ t2)%list) by (rewrite Ht; apply in_elt).
    apply in_app_or in Hin as [Hin|Hin].
    + rewrite Forall_forall in Hq1. apply list_elem_of_In in Hin.
      specialize (Hq1 ev Hin). congruence.
    + assert (Hd : existsb is_delete t2 = true) by (apply existsb_exists; eauto).
      rewrite Hd in Hx. exact Hx.
  - intros ->. exfalso.
    apply Forall_app in Hq as [_ Hq]. apply Forall_cons in Hq as [[Hq _] _]. congruence.
Qed.

Lemma wipe_only_after_copy_witness :
  In (EvInput download_prompt (Ok "3")) (firstn 73 (session field_visit []).2) ∧
  In (EvGetDirectory "/media/."
        "/srv/archive/2024/SBK_stations/sr20240301/OBS_sn_00006_1_BEX" true (Ok tt))
     (firstn 73 (session field_visit []).2).
Proof.
  destruct (wipe_only_after_copy networks field_visit []
              (firstn 73 (session field_visit []).2)
              (EvExecute "rm -r /media/sd/log" (Ok EmptyString))
              (skipn 74 (session field_visit []).2))
    as (Hchoice & _ & _ & _).
  - vm_compute. reflexivity.
  - reflexivity.
  - split; [exact Hchoice|]. vm_compute. do 72 right. left. reflexivity.
Defined.

(** ** Status extractor *)

Lemma chars_app (a b : string) :
  list_ascii_of_string (a ++ b) = (list_ascii_of_string a ++ list_ascii_of_string b)%list.
Proof. induction a as [|c a IH]; [reflexivity|]. rewrite append_cons. cbn. by rewrite IH. Qed.

























(** ** Archive path *)

Lemma no_slash_app a b : no_slash (a ++ b) = no_slash a && no_slash b.
Proof. unfold no_slash. by rewrite chars_app, forallb_app. Qed.

Lemma no_slash_cons c s : no_slash (String c s) = negb (Ascii.eqb c "/") && no_slash s.
Proof. reflexivity. Qed.

Lemma split_no_slash s : no_slash s = true → py_split "/" s = [s].
Proof.
  induction s as [|c s IH]; [reflexivity|]. rewrite no_slash_cons.
  intros H. apply andb_prop in H as [Hc Hs]. apply negb_true_iff in Hc.
  cbn [py_split]. rewrite Hc, IH by assumption. reflexivity.
Qed.

Lemma split_app_slash a b :
  no_slash a = true → py_split "/" (a ++ "/" ++ b) = a :: py_split "/" b.
Proof.
  induction a as [|c a IH]; [reflexivity|]. rewrite no_slash_cons.
  intros H. apply andb_prop in H as [Hc Ha]. apply negb_true_iff in Hc.
  rewrite append_cons. cbn [py_split]. rewrite Hc, IH by assumption. reflexivity.
Qed.

Lemma split_pieces s : Forall (λ p, no_slash p = true) (py_split "/" s).
Proof.
  induction s as [|c s IH]; cbn [py_split]; [by repeat constructor|].
  destruct (Ascii.eqb c "/") eqn:Hc; [by constructor|].
  destruct (py_split "/" s) as [|seg segs]; [repeat constructor; cbn; by rewrite Hc|].
  apply Forall_cons in IH as [Hseg Hsegs]. constructor; [|assumption].
  rewrite no_slash_cons, Hc, Hseg. reflexivity.
Qed.

Lemma segments_are_segments s : Forall (λ p, is_segment p = true) (segments s).
Proof.
  unfold segments. induction (split_pieces s) as [|p l Hp _ IH]; cbn; [constructor|].
  destruct (negb (p == EmptyString) && negb (p == ".")) eqn:E; cbn; [|assumption].
  constructor; [|assumption]. unfold is_segment. by rewrite E, Hp.
Qed.

Lemma segments_segment p : is_segment p = true → segments p = [p].
Proof.
  unfold is_segment, segments. intros H. apply andb_prop in H as [H Hs].
  rewrite split_no_slash by assumption. cbn. by rewrite H.
Qed.

Lemma root_of_segment p : is_segment p = true → root_of p = EmptyString.
Proof.
  unfold is_segment. intros H. apply andb_prop in H as [_ Hs].
  destruct p as [|c p]; [reflexivity|]. rewrite no_slash_cons in Hs.
  apply andb_prop in Hs as [Hc _]. apply negb_true_iff in Hc.
  destruct (Ascii.eqb_spec c "/") as [->|Hne]; [discriminate|].
  cbn. destruct c as [[] [] [] [] [] [] [] []]; try reflexivity. contradiction.
Qed.

Lemma path_add_segment P p :
  is_segment p = true → path_add P p = Path (root P) (parts P ++ [p]).
Proof.
  intros Hp. unfold path_add. by rewrite root_of_segment, segments_segment.
Qed.

Lemma root_of_other c s : c ≠ "/"%char → root_of (String c s) = EmptyString.
Proof.
  intros Hc. cbn. destruct c as [[] [] [] [] [] [] [] []]; try reflexivity. contradiction.
Qed.

Lemma root_of_cases s :
  root_of s = EmptyString ∨ root_of s = "/" ∨ root_of s = "//".
Proof.
  destruct s as [|c1 s]; [by left|].
  destruct (Ascii.eqb_spec c1 "/") as [->|H1]; [|left; by apply root_of_other].
  destruct s as [|c2 s]; [right; by left|].
  destruct (Ascii.eqb_spec c2 "/") as [->|H2].
  - destruct s as [|c3 s]; [right; by right|].
    destruct (Ascii.eqb_spec c3 "/") as [->|H3]; [right; by left|].
    right. right. cbn. destruct c3 as [[] [] [] [] [] [] [] []]; try reflexivity.
    contradiction.
  - right. left. cbn. destruct c2 as [[] [] [] [] [] [] [] []]; try reflexivity.
    contradiction.
Qed.

Lemma segment_head p :
  is_segment p = true → ∃ c s, p = String c s ∧ c ≠ "/"%char.
Proof.
  unfold is_segment. intros H. apply andb_prop in H as [H Hs].
  destruct p as [|c p]; [discriminate|]. exists c, p. split; [reflexivity|].
  rewrite no_slash_cons in Hs. apply andb_prop in Hs as [Hc _].
  apply negb_true_iff in Hc. by destruct (Ascii.eqb_spec c "/").
Qed.

Lemma join_head p ps :
  is_segment p = true → ∃ c s, py_join "/" (p :: ps) = String c s ∧ c ≠ "/"%char.
Proof.
  intros Hp. destruct (segment_head p Hp) as (c & s & -> & Hc).
  destruct ps as [|q ps]; [cbn [py_join]; eauto|].
  change (py_join "/" (String c s :: q :: ps))
    with (String c s ++ "/" ++ py_join "/" (q :: ps)).
  rewrite append_cons. eauto.
Qed.

Lemma segments_app_slash p rest :
  is_segment p = true → segments (p ++ "/" ++ rest) = p :: segments rest.
Proof.
  unfold is_segment, segments. intros H. apply andb_prop in H as [Hne Hs].
  rewrite split_app_slash by assumption.
  change (List.filter ?f (p :: ?l)) with (if f p then p :: List.filter f l else List.filter f l).
  cbv beta. by rewrite Hne.
Qed.

Lemma segments_join ps :
  Forall (λ p, is_segment p = true) ps → segments (py_join "/" ps) = ps.
Proof.
  induction 1 as [|p ps Hp Hps IH]; [reflexivity|].
  destruct ps as [|q ps]; [by apply segments_segment|].
  change (py_join "/" (p :: q :: ps)) with (p ++ "/" ++ py_join "/" (q :: ps)).
  rewrite segments_app_slash by assumption. by rewrite IH.
Qed.

Lemma segments_slash s : segments ("/" ++ s) = segments s.
Proof. reflexivity. Qed.

Lemma path_str_parse P : well_formed P → make_path [path_str P] = P.
Proof.
  destruct P as [r ps]. intros [Hr Hps]. cbn [root parts] in *.
  assert (Hparse : ∀ s, make_path [s] = Path (root_of s) (segments s)).
  { intros s. unfold make_path. cbn [foldl]. unfold path_add. cbn [root parts app].
    destruct (root_of s == EmptyString) eqn:E; [|reflexivity].
    apply String.eqb_eq in E. by rewrite E. }
  rewrite Hparse. unfold path_str. cbn [root parts].
  destruct Hr as [->|[->| ->]].
  - destruct ps as [|p ps]; [reflexivity|].
    apply Forall_cons in Hps as Hp. destruct Hp as [Hp _].
    rewrite append_nil, segments_join by assumption.
    destruct (join_head p ps Hp) as (c & s & -> & Hc). by rewrite root_of_other.
  - rewrite segments_slash, segments_join by assumption.
    destruct ps as [|p ps]; [reflexivity|].
    apply Forall_cons in Hps as Hp. destruct Hp as [Hp _].
    destruct (join_head p ps Hp) as (c & s & -> & Hc).
    f_equal. cbn. destruct c as [[] [] [] [] [] [] [] []]; try reflexivity. contradiction.
  - change ("//" ++ py_join "/" ps) with ("/" ++ "/" ++ py_join "/" ps).
    rewrite !segments_slash, segments_join by assumption.
    destruct ps as [|p ps]; [reflexivity|].
    apply Forall_cons in Hps as Hp. destruct Hp as [Hp _].
    destruct (join_head p ps Hp) as (c & s & -> & Hc).
    f_equal. cbn. destruct c as [[] [] [] [] [] [] [] []]; try reflexivity. contradiction.
Qed.

Lemma make_path_well_formed c : well_formed (make_path [c]).
Proof.
  unfold make_path. cbn [foldl]. unfold path_add. cbn [root parts app].
  destruct (root_of c == EmptyString); split; cbn [root parts];
    auto using segments_are_segments, root_of_cases.
Qed.

Lemma segment_cons c s :
  Ascii.eqb c "." = false → Ascii.eqb c "/" = false → no_slash s = true →
  is_segment (String c s) = true.
Proof.
  intros Hdot Hslash Hs. unfold is_segment. rewrite no_slash_cons, Hslash, Hs.
  cbn. by rewrite Hdot.
Qed.

Lemma uint_no_slash d : no_slash (NilEmpty.string_of_uint d) = true.
Proof. induction d; cbn [NilEmpty.string_of_uint]; rewrite ?no_slash_cons; auto. Qed.

Lemma py_str_no_slash z : no_slash (py_str z) = true.
Proof.
  unfold py_str. destruct (Z.to_int z) as [d|d]; cbn [NilZero.string_of_int].
  - destruct d; try apply uint_no_slash. reflexivity.
  - rewrite no_slash_cons. destruct d; try apply uint_no_slash. reflexivity.
Qed.

Lemma py_str_segment z : is_segment (py_str z) = true.
Proof.
  pose proof (py_str_no_slash z) as Hs. revert Hs.
  unfold py_str. destruct (Z.to_int z) as [d|d]; cbn [NilZero.string_of_int].
  - destruct d; cbn [NilZero.string_of_uint NilEmpty.string_of_uint]; try reflexivity;
      rewrite no_slash_cons; intros H; apply andb_prop in H as [_ H];
      by apply segment_cons.
  - rewrite no_slash_cons. intros H. apply andb_prop in H as [_ H]. by apply segment_cons.
Qed.

Lemma concat_no_slash sep ls :
  no_slash sep = true → Forall (λ x, no_slash x = true) ls →
  no_slash (String.concat sep ls) = true.
Proof.
  intros Hsep. induction 1 as [|x l Hx Hl IH]; [reflexivity|].
  destruct l as [|y l]; [exact Hx|].
  change (String.concat sep (x :: y :: l)) with (x ++ sep ++ String.concat sep (y :: l)).
  by rewrite !no_slash_app, Hx, Hsep, IH.
Qed.

Lemma zero_pad_no_slash k s : no_slash s = true → no_slash (zero_pad k s) = true.
Proof.
  intros Hs. unfold zero_pad. rewrite no_slash_app, Hs, andb_true_r.
  apply concat_no_slash; [reflexivity|].
  induction (k - String.length s)%nat; by constructor.
Qed.

Lemma sr_dir_segment d : is_segment ("sr" ++ strftime_Ymd d) = true.
Proof.
  rewrite !append_cons, append_nil. apply segment_cons; [reflexivity..|].
  rewrite no_slash_cons. unfold strftime_Ymd.
  rewrite !no_slash_app, py_str_no_slash, !zero_pad_no_slash by apply py_str_no_slash.
  reflexivity.
Qed.

Lemma phase_suffix_no_slash option : no_slash (phase_suffix option) = true.
Proof. unfold phase_suffix. by destruct (option == "1"), (option == "2"). Qed.

Lemma st_dir_segment station sn option :
  no_slash station = true → no_slash sn = true →
  is_segment ((station ++ "_sn_" ++ sn) ++ phase_suffix option) = true.
Proof.
  intros Hst Hsn. rewrite !append_assoc'.
  assert (Hrest : no_slash ("_sn_" ++ sn ++ phase_suffix option) = true).
  { by rewrite !no_slash_app, Hsn, phase_suffix_no_slash. }
  destruct station as [|c s]; [rewrite append_nil; by apply segment_cons|].
  rewrite append_cons. rewrite no_slash_cons in Hst. apply andb_prop in Hst as [Hc Hs].
  unfold is_segment. rewrite no_slash_cons, Hc, no_slash_app, Hs, Hrest.
  cbn [String.eqb].
  destruct s; rewrite ?append_cons, ?append_nil; by destruct (Ascii.eqb c ".").
Qed.

Lemma archive_path_parts c yr network sr_dir st_dir :
  is_segment network = true → is_segment sr_dir = true → is_segment st_dir = true →
  archive_path c yr network sr_dir st_dir
  = Path (root (make_path [c])) (parts (make_path [c]) ++ [py_str yr; network; sr_dir; st_dir]).
Proof.
  intros Hn Hsr Hst. unfold archive_path, absolute.
  change (root (make_path []) == EmptyString) with true. cbv iota.
  change (parts (make_path [])) with (@nil string). rewrite app_nil_r.
  assert (Heta : ∀ P, Path (root P) (parts P) = P) by (by intros []).
  rewrite Heta.
  change (make_path (?x :: ?l)) with (foldl path_add (make_path [x]) l).
  rewrite path_str_parse by apply make_path_well_formed.
  cbn [foldl]. rewrite !path_add_segment by auto using py_str_segment.
  cbn [root parts]. by rewrite <- !app_assoc.
Qed.

Lemma py_join_snoc ps x :
  ps ≠ [] → py_join "/" (ps ++ [x]) = py_join "/" ps ++ "/" ++ x.
Proof.
  induction ps as [|p ps IH]; [contradiction|]. intros _.
  destruct ps as [|q ps]; [reflexivity|].
  change (py_join "/" ((p :: q :: ps) ++ [x]))
    with (p ++ "/" ++ py_join "/" ((q :: ps) ++ [x])).
  rewrite IH by discriminate.
  change (py_join "/" (p :: q :: ps)) with (p ++ "/" ++ py_join "/" (q :: ps)).
  by rewrite !append_assoc'.
Qed.

Lemma path_str_child r ps x :
  ps ≠ [] → path_str (Path r (ps ++ [x])) = path_str (Path r ps) ++ "/" ++ x.
Proof.
  intros Hps. destruct ps as [|p ps]; [contradiction|].
  unfold path_str. cbn [root parts app].
  change (p :: ps ++ [x])%list with ((p :: ps) ++ [x])%list.
  destruct r; rewrite py_join_snoc by discriminate; by rewrite ?append_nil, ?append_assoc'.
Qed.

Lemma absolute_rooted c P : root P ≠ EmptyString → absolute c P = P.
Proof.
  intros Hr. unfold absolute. apply String.eqb_neq in Hr. by rewrite Hr.
Qed.

Lemma create_directories_paths c yr network sr_dir st_dir :
  root (make_path [c]) ≠ EmptyString → parts (make_path [c]) ≠ [] →
  path_str (make_path [c]) = c →
  is_segment network = true → is_segment sr_dir = true → is_segment st_dir = true →
  let p := archive_path c yr network sr_dir st_dir in
  let local_dest := path_str (absolute c (make_path [path_str p])) in
  let p_log := make_path [local_dest; "var_log"] in
  path_str p = c ++ "/" ++ py_str yr ++ "/" ++ network ++ "/" ++ sr_dir ++ "/" ++ st_dir ∧
  local_dest = path_str p ∧
  path_str p_log = path_str p ++ "/var_log" ∧
  path_str (absolute c (make_path [path_str p_log])) = path_str p ++ "/var_log".
Proof.
  intros Hroot Hparts Hnorm Hn Hsr Hst. cbv zeta.
  rewrite archive_path_parts by assumption.
  destruct (make_path_well_formed c) as [Hr Hps].
  set (r := root (make_path [c])) in *. set (ps := parts (make_path [c])) in *.
  assert (Hcwd : path_str (Path r ps) = c).
  { transitivity (path_str (make_path [c])); [|exact Hnorm].
    unfold r, ps. by destruct (make_path [c]). }
  set (P := Path r (ps ++ [py_str yr; network; sr_dir; st_dir])).
  assert (HP : well_formed P).
  { split; [exact Hr|]. cbn [parts]. apply Forall_app. split; [exact Hps|].
    repeat constructor; auto using py_str_segment. }
  assert (Hstr : path_str P
                 = c ++ "/" ++ py_str yr ++ "/" ++ network ++ "/" ++ sr_dir ++ "/" ++ st_dir).
  { unfold P.
    change (ps ++ [py_str yr; network; sr_dir; st_dir])%list
      with (ps ++ [py_str yr] ++ [network] ++ [sr_dir] ++ [st_dir])%list.
    rewrite !app_assoc.
    rewrite 4!path_str_child; try (intros Hnil; apply app_eq_nil in Hnil as [_ [=]]);
      [|assumption].
    by rewrite Hcwd, !append_assoc'. }
  assert (Hloc : path_str (absolute c (make_path [path_str P])) = path_str P).
  { by rewrite path_str_parse, absolute_rooted. }
  assert (Hlog : make_path [path_str P; "var_log"]
                 = Path r ((ps ++ [py_str yr; network; sr_dir; st_dir]) ++ ["var_log"])).
  { change (make_path [path_str P; "var_log"])
      with (path_add (make_path [path_str P]) "var_log").
    by rewrite path_str_parse, path_add_segment. }
  assert (Hlogstr : path_str (make_path [path_str P; "var_log"]) = path_str P ++ "/var_log").
  { rewrite Hlog, path_str_child; [reflexivity|].
    intros Hnil. apply app_eq_nil in Hnil as [_ [=]]. }
  assert (Hlogabs : path_str (absolute c (make_path [path_str (make_path
                      [path_str P; "var_log"])])) = path_str P ++ "/var_log").
  { rewrite Hlog, path_str_parse, absolute_rooted, <- Hlog; try assumption.
    split; [exact Hr|]. cbn [parts]. apply Forall_app.
    split; [apply HP | by repeat constructor]. }
  rewrite Hloc. auto.
Qed.

Lemma station_dir_run station sn option w h :
  station_dir station sn option w h
  = (Ok ((station ++ "_sn_" ++ sn) ++ phase_suffix option), phase_events option).
Proof.
  unfold station_dir, phase_suffix, phase_events.
  destruct (option == "1"); [do 3 step; reflexivity|].
  destruct (option == "2"); [do 3 step; reflexivity|].
  by rewrite append_empty_r.
Qed.

Lemma four_digits_check :
  forallb (λ n, py_str (Z.of_nat n) == decimal 4 (Z.of_nat n)) (seq 1000 (9 * 1000)) = true.
Proof. vm_compute. reflexivity. Qed.

Lemma two_digits_check :
  forallb (λ n, zero_pad 2 (py_str (Z.of_nat n)) == decimal 2 (Z.of_nat n)) (seq 0 100) = true.
Proof. vm_compute. reflexivity. Qed.

Lemma py_str_four_digits y : 1000 ≤ y ≤ 9999 → py_str y = decimal 4 y.
Proof.
  intros Hy. pose proof four_digits_check as H. rewrite forallb_forall in H.
  specialize (H (Z.to_nat y)). rewrite Z2Nat.id in H by lia.
  apply String.eqb_eq, H, in_seq. lia.
Qed.

Lemma zero_pad_two_digits m : 0 ≤ m ≤ 99 → zero_pad 2 (py_str m) = decimal 2 m.
Proof.
  intros Hm. pose proof two_digits_check as H. rewrite forallb_forall in H.
  specialize (H (Z.to_nat m)). rewrite Z2Nat.id in H by lia.
  apply String.eqb_eq, H, in_seq. lia.
Qed.

Lemma strftime_Ymd_digits d :
  1000 ≤ year d ≤ 9999 → 1 ≤ month d ≤ 12 → 1 ≤ day d ≤ 31 →
  strftime_Ymd d = decimal 4 (year d) ++ decimal 2 (month d) ++ decimal 2 (day d).
Proof.
  intros Hy Hm Hd. unfold strftime_Ymd.
  by rewrite py_str_four_digits, !zero_pad_two_digits by lia.
Qed.

(** C8: the archive directory is
    [<cwd>/<year>/<network>/sr<YYYYMMDD>/<station>_sn_<serial><suffix>],
    where the suffix is [_1_BEX] for the answer "1", [_2_AEX] for "2"
    and empty for any other answer.  The date stamp comes from the
    clock as read right after the prompt, the year from a second read
    just before the directory is made; for a date with a four-digit
    year the stamp is that year, the month and the day in 4, 2 and 2
    digits.  Serial 00006 (station OBS of SBK_stations) serviced before
    the exchange, with both reads on 2024-03-01, gives
    [<cwd>/2024/SBK_stations/sr20240301/OBS_sn_00006_1_BEX].  The
    working directory is an absolute path in normal form other than the
    root, and network, station and serial contain no slash. *)
Theorem archive_path_structure w h c sn network station option d1 d2 :
  w_cwd w = Ok c →
  root (make_path [c]) ≠ EmptyString →
  parts (make_path [c]) ≠ [] →
  path_str (make_path [c]) = c →
  is_segment network = true → no_slash station = true → no_slash sn = true →
  w_input w h phase_prompt = Ok option →
  (∀ h' msg, w_print w h' msg = Ok tt) →
  w_today w (h ++ [EvInput phase_prompt (Ok option); EvPrint rule (Ok tt)])%list = d1 →
  w_today w (h ++ [EvInput phase_prompt (Ok option); EvPrint rule (Ok tt); EvToday d1]
               ++ phase_events option ++ [EvCwd (Ok c)])%list = d2 →
  (∀ h' p, w_mkdir w h' p = Ok tt) →
  let st_dir := (station ++ "_sn_" ++ sn) ++ phase_suffix option in
  let local_dest :=
    c ++ "/" ++ py_str (year d2) ++ "/" ++ network ++ "/"
    ++ ("sr" ++ strftime_Ymd d1) ++ "/" ++ st_dir in
  create_directories sn network station w h
  = (Ok (local_dest, local_dest ++ "/var_log"),
     app [EvInput phase_prompt (Ok option); EvPrint rule (Ok tt); EvToday d1]
       (app (phase_events option)
          [EvCwd (Ok c); EvToday d2; EvMkdir local_dest (Ok tt);
           EvMkdir (local_dest ++ "/var_log") (Ok tt);
           EvLog (nl ++ "...directory structure on local machine done.")])) ∧
  phase_suffix "1" = "_1_BEX" ∧
  phase_suffix "2" = "_2_AEX" ∧
  (option ≠ "1" → option ≠ "2" → st_dir = station ++ "_sn_" ++ sn) ∧
  (∀ d, 1000 ≤ year d ≤ 9999 → 1 ≤ month d ≤ 12 → 1 ≤ day d ≤ 31 →
     py_str (year d) = decimal 4 (year d) ∧
     strftime_Ymd d = decimal 4 (year d) ++ decimal 2 (month d) ++ decimal 2 (day d)) ∧
  (decimal 4 2024 = "2024" ∧ decimal 2 3 = "03" ∧ decimal 2 1 = "01" ∧
   decimal 4 1999 ++ decimal 2 12 ++ decimal 2 31 = "19991231") ∧
  lookup_station "00006" networks = Ok ("SBK_stations", "OBS") ∧
  (sn = "00006" → network = "SBK_stations" → station = "OBS" → option = "1" →
   d1 = Date 2024 3 1 → d2 = Date 2024 3 1 →
   local_dest = c ++ "/2024/SBK_stations/sr20240301/OBS_sn_00006_1_BEX").
Proof.
  intros Hcwd Hroot Hparts Hnorm Hn Hst Hsn Hin Hprint Hd1 Hd2 Hmkdir. cbv zeta.
  split; [|split; [reflexivity|split; [reflexivity|split; [|split; [|split; [|split]]]]]].
  - destruct (create_directories_paths c (year d2) network
                ("sr" ++ strftime_Ymd d1) ((station ++ "_sn_" ++ sn) ++ phase_suffix option)
                Hroot Hparts Hnorm Hn (sr_dir_segment d1)
                (st_dir_segment station sn option Hst Hsn))
      as (Hp & Hloc & Hplog & Hlog).
    cbv zeta in Hloc, Hplog, Hlog. rewrite Hloc in Hplog, Hlog.
    unfold create_directories.
    step with Hin. step with Hprint. step with Hd1.
    rewrite ?bind_assoc, bind_step, station_dir_run. cbn [fst snd]. tidy.
    step with Hcwd. cbn [app] in Hd2. step with Hd2.
    rewrite ?bind_assoc, bind_step. cbn [mkdir fst snd]. rewrite Hmkdir. tidy.
    rewrite ?bind_assoc, bind_step. cbn [mkdir fst snd]. rewrite Hmkdir. tidy.
    step. rewrite Hloc, Hlog, Hplog, Hp, <- app_assoc. reflexivity.
  - intros H1 H2. unfold phase_suffix.
    apply String.eqb_neq in H1, H2. rewrite H1, H2. apply append_empty_r.
  - intros d Hy Hm Hd. split; [by apply py_str_four_digits | by apply strftime_Ymd_digits].
  - repeat split.
  - vm_compute. reflexivity.
  - intros -> -> -> -> -> ->. reflexivity.
Qed.

Lemma archive_path_structure_witness :
  create_directories "00006" "SBK_stations" "OBS" field_visit []
  = (Ok ("/srv/archive/2024/SBK_stations/sr20240301/OBS_sn_00006_1_BEX",
         "/srv/archive/2024/SBK_stations/sr20240301/OBS_sn_00006_1_BEX/var_log"),
     [EvInput phase_prompt (Ok "1"); EvPrint rule (Ok tt); EvToday (Date 2024 3 1);
      EvLog (nl ++ rule); EvLog "This is the service BEFORE the sd card exchange.";
      EvLog rule; EvCwd (Ok "/srv/archive"); EvToday (Date 2024 3 1);
      EvMkdir "/srv/archive/2024/SBK_stations/sr20240301/OBS_sn_00006_1_BEX" (Ok tt);
      EvMkdir "/srv/archive/2024/SBK_stations/sr20240301/OBS_sn_00006_1_BEX/var_log" (Ok tt);
      EvLog (nl ++ "...directory structure on local machine done.")]).
Proof.
  refine (proj1 (archive_path_structure field_visit [] "/srv/archive" "00006" "SBK_stations"
                   "OBS" "1" (Date 2024 3 1) (Date 2024 3 1) eq_refl _ _ eq_refl eq_refl
                   eq_refl eq_refl eq_refl (λ _ _, eq_refl) eq_refl eq_refl
                   (λ _ _, eq_refl))); vm_compute; discriminate.
Defined.

(** * Further properties of the script *)

(** ** The lookup loop *)

Lemma first_found_none sn nets :
  Forall (λ e, e.2 !! sn = None) nets →
  first_found sn nets = ("unknown_network", "unknown_station").
Proof.
  induction 1 as [|[n d] rest Hd _ IH]; [reflexivity|].
  cbn in Hd. cbn [first_found]. by rewrite Hd.
Qed.

Lemma first_match_split sn (nets : registry) :
  Forall (λ e, e.2 !! sn = None) nets ∨
  ∃ pre n d st post,
    nets = (pre ++ (n, d) :: post)%list ∧ Forall (λ e, e.2 !! sn = None) pre ∧
    d !! sn = Some st ∧ first_found sn nets = (n, st).
Proof.
  induction nets as [|[n d] rest IH]; [by left|].
  destruct (d !! sn) as [st|] eqn:Hd.
  - right. exists [], n, d, st, rest. cbn [first_found]. rewrite Hd. auto.
  - destruct IH as [Hnone|(pre & n' & d' & st & post & -> & Hpre & Hd' & Hff)].
    + left. by constructor.
    + right. exists ((n, d) :: pre), n', d', st, post.
      cbn [first_found]. rewrite Hd. repeat split; auto.
Qed.

(** X1: on a registry in which every serial is listed by at most one
    network, the loop returns what a first-match search returns. *)
Theorem unique_lookup_is_first_found sn nets :
  unique_serials nets → lookup_station sn nets = Ok (first_found sn nets).
Proof.
  intros Hu. destruct (first_match_split sn nets)
    as [Hnone|(pre & n & d & st & post & -> & Hpre & Hd & ->)].
  - by rewrite lookup_station_none, first_found_none.
  - apply lookup_station_last; [assumption|].
    eapply (unique_tail_misses sn pre post (n, d)); [assumption|]. cbn. eauto.
Qed.

Lemma unique_lookup_is_first_found_witness :
  lookup_station "0000A" networks = Ok (first_found "0000A" networks).
Proof.
  apply unique_lookup_is_first_found, disjoint_serials_sound. vm_compute. reflexivity.
Defined.

Lemma foldl_lookup_origin sn acc (nets : registry) p :
  foldl (lookup_step sn) (Ok acc) nets = Ok p →
  (p = acc ∧ Forall (λ e, e.2 !! sn = None) nets) ∨
  ∃ d, (p.1, d) ∈ nets ∧ d !! sn = Some p.2.
Proof.
  revert acc. induction nets as [|[n d] rest IH]; intros acc; cbn [foldl].
  - intros [= ->]. left. auto.
  - destruct (d !! sn) as [st|] eqn:Hd.
    + erewrite lookup_step_hit by eassumption. intros Hrest.
      destruct (IH _ Hrest) as [[-> _]|(d' & Hin & Hd')].
      * right. exists d. split; [apply list_elem_of_here | assumption].
      * right. exists d'. split; [by apply list_elem_of_further | assumption].
    + rewrite lookup_step_miss by assumption. intros Hrest.
      destruct (IH _ Hrest) as [[-> Hnone]|(d' & Hin & Hd')].
      * left. split; [reflexivity | by constructor].
      * right. exists d'. split; [by apply list_elem_of_further | assumption].
Qed.

(** X2: whatever the registry, the loop invents no identity: it returns
    either the initial sentinel pair, and then no network lists the
    serial, or a network of the registry together with the station that
    this network lists for the serial. *)
Theorem lookup_station_origin sn nets n st :
  lookup_station sn nets = Ok (n, st) →
  (n = "unknown_network" ∧ st = "unknown_station" ∧
   Forall (λ e, e.2 !! sn = None) nets) ∨
  ∃ d, (n, d) ∈ nets ∧ d !! sn = Some st.
Proof.
  intros Hl. apply foldl_lookup_origin in Hl as [[[= -> ->] Hnone]|Hreg]; auto.
Qed.

Lemma lookup_station_origin_witness :
  ∃ d, ("NOW_stations", d) ∈ networks ∧ d !! "0000K" = Some "PATW".
Proof.
  destruct (lookup_station_origin "0000K" networks "NOW_stations" "PATW")
    as [(Hn & _)|Hreg]; [vm_compute; reflexivity | discriminate Hn | exact Hreg].
Defined.

(** X3: the message of the identification step depends on the station
    label alone.  A serial whose station is registered under the label
    [unknown_station] is announced as fitting no station, although its
    network is returned; any other registered label is announced with
    its network. *)
Theorem identify_message w h sn (pre post : registry) n d st :
  w_execute_command w h serial_command = Ok sn →
  d !! sn = Some st → Forall (λ e, e.2 !! sn = None) post →
  (st = "unknown_station" →
   identify (pre ++ (n, d) :: post)%list w h
   = (Ok (sn, n, st), [EvExecute serial_command (Ok sn); EvLog no_fit_message])) ∧
  (st ≠ "unknown_station" →
   identify (pre ++ (n, d) :: post)%list w h
   = (Ok (sn, n, st),
      [EvExecute serial_command (Ok sn);
       EvLog (nl ++ "...you are at the " ++ st ++ " station (" ++ n ++ ").")])).
Proof.
  intros Hex Hd Hpost.
  pose proof (lookup_station_last sn pre n d st post Hd Hpost) as Hl.
  rewrite (identify_run _ _ _ _ _ _ Hex Hl). split.
  - intros ->. reflexivity.
  - intros Hne. apply String.eqb_neq in Hne. by rewrite Hne.
Qed.

Lemma identify_message_witness :
  identify [("SBK_stations", <["00006" := "unknown_station"]> SBK_stations)] field_visit []
  = (Ok ("00006", "SBK_stations", "unknown_station"),
     [EvExecute serial_command (Ok "00006"); EvLog no_fit_message]).
Proof.
  refine (proj1 (identify_message field_visit [] "00006" [] [] "SBK_stations"
                   (<["00006" := "unknown_station"]> SBK_stations) "unknown_station"
                   eq_refl _ _) eq_refl).
  - vm_compute. reflexivity.
  - constructor.
Defined.

(** ** Failures end the run *)

Lemma emits_True {A} (m : M A) : emits (λ _, True) m.
Proof. intros w h. induction (m w h).2; by constructor. Qed.

Lemma aborts_bind {A B} (bad : event → option exn) P (m : M A) (k : A → M B) :
  aborts_at bad P m → emits P m → (∀ a, aborts_at bad P (k a)) →
  aborts_at bad P (m ≫= k).
Proof.
  intros Hm HP Hk w h pre ev post e. rewrite bind_step.
  specialize (Hm w h pre ev). specialize (HP w h).
  destruct (m w h) as [[a|e1] t1]; cbn [fst snd] in *.
  - unfold after. cbn [fst snd]. intros Ht Hbad.
    apply app_split in Ht as [(post1 & -> & ->)|(pre2 & -> & Ht)].
    + destruct (Hm post1 e eq_refl Hbad) as (_ & _ & [=]).
    + destruct (Hk a w (h ++ t1)%list pre2 ev post e Ht Hbad) as (Hpre & -> & Hr).
      split; [|split; [reflexivity | assumption]].
      apply Forall_app. auto.
  - intros Ht Hbad. destruct (Hm post e Ht Hbad) as (Hpre & Hpost & [= ->]). auto.
Qed.

Lemma aborts_for_each {A} (bad : event → option exn) P (l : list A) (body : A → M unit) :
  (∀ x, aborts_at bad P (body x)) → (∀ x, emits P (body x)) →
  aborts_at bad P (for_each l body).
Proof.
  intros Hbody HP. induction l as [|x l IH]; cbn [for_each].
  - apply aborts_quiet. apply emits_ret.
  - apply aborts_bind; auto.
Qed.

(** A call whose event records its result. *)
Lemma aborts_call {A} (bad : event → option exn) P
    (ask : World → list event → result A) (ev : result A → event) :
  (∀ a, bad (ev (Ok a)) = None) → (∀ e, bad (ev (Raise e)) = Some e) →
  aborts_at bad P (λ w h, (ask w h, [ev (ask w h)])).
Proof.
  intros Hok Hraise w h pre ev0 post e. cbn [fst snd]. intros Ht Hbad.
  destruct pre as [|x pre]; cbn in Ht; injection Ht as <- Ht.
  - subst post. destruct (ask w h) as [a|e1].
    + rewrite Hok in Hbad. discriminate.
    + rewrite Hraise in Hbad. injection Hbad as ->. auto.
  - by destruct pre.
Qed.

Lemma stops_open host : aborts_at cause (λ _, True) (open_connection host).
Proof. by apply (aborts_call cause _ (λ w h, w_open_connection w h host) (EvOpenConnection host)). Qed.

Lemma stops_login usr pw : aborts_at cause (λ _, True) (login usr pw).
Proof. by apply (aborts_call cause _ (λ w h, w_login w h usr pw) (EvLogin usr pw)). Qed.

Lemma stops_execute command :
  (command == du_command) = false → aborts_at cause (λ _, True) (execute_command command).
Proof.
  intros Hc.
  apply (aborts_call cause _ (λ w h, w_execute_command w h command) (EvExecute command));
    [|reflexivity].
  intros a. unfold cause. cbn. by rewrite Hc.
Qed.

Lemma stops_list dir : aborts_at cause (λ _, True) (list_files_in_directory dir).
Proof. by apply (aborts_call cause _ (λ w h, w_list_files w h dir) (EvListFiles dir)). Qed.

Lemma stops_get_file src dst : aborts_at cause (λ _, True) (get_file src dst).
Proof. by apply (aborts_call cause _ (λ w h, w_get_file w h src dst) (EvGetFile src dst)). Qed.

Lemma stops_get_directory src dst rec :
  aborts_at cause (λ _, True) (get_directory src dst rec).
Proof.
  by apply (aborts_call cause _ (λ w h, w_get_directory w h src dst rec)
              (EvGetDirectory src dst rec)).
Qed.

Lemma stops_mkdir p : aborts_at cause (λ _, True) (mkdir p).
Proof.
  by apply (aborts_call cause _ (λ w h, w_mkdir w h (path_str p)) (EvMkdir (path_str p))).
Qed.

Lemma stops_print msg : aborts_at cause (λ _, True) (print msg).
Proof. by apply (aborts_call cause _ (λ w h, w_print w h msg) (EvPrint msg)). Qed.

Lemma stops_sleep secs : aborts_at cause (λ _, True) (sleep secs).
Proof. by apply (aborts_call cause _ (λ w h, w_sleep w h secs) (EvSleep secs)). Qed.

Lemma stops_input prompt : aborts_at cause (λ _, True) (input prompt).
Proof. by apply (aborts_call cause _ (λ w h, w_input w h prompt) (EvInput prompt)). Qed.

Lemma stops_call command : aborts_at cause (λ _, True) (subprocess_call command).
Proof. by apply (aborts_call cause _ (λ w h, w_call w h command) (EvCall command)). Qed.

Lemma stops_home : aborts_at cause (λ _, True) home.
Proof. by apply (aborts_call cause _ (λ w h, w_home w) EvHome). Qed.

Lemma stops_cwd : aborts_at cause (λ _, True) cwd.
Proof. by apply (aborts_call cause _ (λ w h, w_cwd w) EvCwd). Qed.

Lemma stops_popen f s : aborts_at cause (λ _, True) (popen_stdout f s).
Proof.
  by apply (aborts_call cause _
              (λ w h, match w_spawn w h (grep_command f s) with
                      | Ok _ => Ok (pipeline w h f s)
                      | Raise e => Raise e
                      end)
              (EvPopen (grep_command f s))).
Qed.

Lemma stops_sample {A} (k : Z → M A) :
  (∀ s, aborts_at cause (λ _, True) (k s)) →
  aborts_at cause (λ _, True)
    (execute_command du_command ≫= λ o, lift (py_int o) ≫= k).
Proof.
  intros Hk w h pre ev post e. step.
  destruct (w_execute_command w h du_command) as [o|e1] eqn:Hex;
    cbn [fst snd]; rewrite ?after_pair.
  - step. destruct (py_int o) as [s|e2] eqn:Hint; tidy.
    + unfold after. cbn [fst snd]. intros Ht Hbad.
      destruct pre as [|x pre]; cbn in Ht; injection Ht as <- Ht.
      * unfold cause in Hbad. cbn in Hbad. rewrite Hint in Hbad. discriminate.
      * destruct (Hk s w _ pre ev post e Ht Hbad) as (Hpre & -> & Hr).
        split; [|split; [reflexivity | assumption]]. constructor; auto.
    + intros Ht Hbad.
      destruct pre as [|x pre]; cbn in Ht; injection Ht as <- Ht.
      * unfold cause in Hbad. cbn in Hbad. rewrite Hint in Hbad. injection Hbad as <-.
        subst post. auto.
      * by destruct pre.
  - intros Ht Hbad. destruct pre as [|x pre]; cbn in Ht; injection Ht as <- Ht.
    + injection Hbad as <-. subst post. auto.
    + by destruct pre.
Qed.

Ltac stops :=
  lazymatch goal with
  | |- aborts_at _ _ (execute_command du_command ≫= _) =>
      apply stops_sample; intros ?; stops
  | |- aborts_at _ _ (_ ≫= _) =>
      apply aborts_bind; [stops | apply emits_True | intros ?; stops]
  | |- aborts_at _ _ (if ?b then _ else _) => destruct b; stops
  | |- aborts_at _ _ (match ?x with (_, _) => _ end) => destruct x; stops
  | |- aborts_at _ _ (for_each _ _) =>
      apply aborts_for_each; [intros ?; stops | intros ?; apply emits_True]
  | |- aborts_at _ _ (open_connection _) => apply stops_open
  | |- aborts_at _ _ (login _ _) => apply stops_login
  | |- aborts_at _ _ (execute_command _) => apply stops_execute; reflexivity
  | |- aborts_at _ _ (list_files_in_directory _) => apply stops_list
  | |- aborts_at _ _ (get_file _ _) => apply stops_get_file
  | |- aborts_at _ _ (get_directory _ _ _) => apply stops_get_directory
  | |- aborts_at _ _ (mkdir _) => apply stops_mkdir
  | |- aborts_at _ _ (mret _) => apply aborts_quiet, emits_ret
  | |- aborts_at _ _ (lift _) => apply aborts_quiet, emits_lift
  | |- aborts_at _ _ home => apply stops_home
  | |- aborts_at _ _ cwd => apply stops_cwd
  | |- aborts_at _ _ (decode _) => apply aborts_quiet, emits_decode
  | |- aborts_at _ _ (logger_info _) => apply aborts_quiet; quiet
  | |- aborts_at _ _ (print _) => apply stops_print
  | |- aborts_at _ _ (sleep _) => apply stops_sleep
  | |- aborts_at _ _ (subprocess_call _) => apply stops_call
  | |- aborts_at _ _ (input _) => apply stops_input
  | |- aborts_at _ _ today => apply aborts_quiet; quiet
  | |- aborts_at _ _ (popen_stdout _ _) => apply stops_popen
  | |- aborts_at _ _ (?f _ _ _) => unfold f; stops
  | |- aborts_at _ _ (?f _ _) => unfold f; stops
  | |- aborts_at _ _ (?f _) => unfold f; stops
  | |- aborts_at _ _ ?f => unfold f; stops
  end.

Lemma session_stops nets : aborts_at cause (λ _, True) (session_with nets).
Proof. stops. Qed.

(** X5: no failure of a call to the outside is caught or retried: in
    every run of the session a failed call (connect, login, remote
    command, listing, file or directory fetch, directory creation, and
    also a prompt, a print, the wait, a local shell command, the lookup
    of the home or of the working directory) is the last event, and the
    run ends with the exception of that call. *)
Theorem failed_call_ends_session nets w h pre ev post e :
  (session_with nets w h).2 = (pre ++ ev :: post)%list →
  failure ev = Some e →
  post = [] ∧ (session_with nets w h).1 = Raise e.
Proof.
  intros Ht Hfail.
  destruct (session_stops nets w h pre ev post e Ht) as (_ & Hpost & Hr); [|auto].
  unfold cause. by rewrite Hfail.
Qed.

Lemma failed_call_ends_session_witness :
  session refused_visit []
  = (Raise (RemoteError "Authentication failed"),
     firstn 4 (session refused_visit []).2
     ++ [EvLogin user pwd (Raise (RemoteError "Authentication failed"))])%list.
Proof.
  destruct (failed_call_ends_session networks refused_visit []
              (firstn 4 (session refused_visit []).2)
              (EvLogin user pwd (Raise (RemoteError "Authentication failed")))
              (skipn 5 (session refused_visit []).2)
              (RemoteError "Authentication failed")) as [_ Hr].
  - vm_compute. reflexivity.
  - reflexivity.
  - vm_compute. reflexivity.
Defined.

(** ** Why a run raises *)












(** ** Paths for any identity *)

Lemma path_add_well_formed P a : well_formed P → well_formed (path_add P a).
Proof.
  intros [Hr Hps]. unfold path_add.
  destruct (root_of a == EmptyString); split; cbn [root parts];
    auto using root_of_cases, segments_are_segments.
  apply Forall_app. auto using segments_are_segments.
Qed.

Lemma foldl_path_add_well_formed P args :
  well_formed P → well_formed (foldl path_add P args).
Proof.
  revert P. induction args as [|a args IH]; intros P HP; cbn [foldl];
    auto using path_add_well_formed.
Qed.

Lemma make_path_well_formed_all args : well_formed (make_path args).
Proof.
  apply foldl_path_add_well_formed. split; [by left | constructor].
Qed.

Lemma path_add_rooted P a : root P ≠ EmptyString → root (path_add P a) ≠ EmptyString.
Proof.
  intros HP. unfold path_add. destruct (root_of a == EmptyString) eqn:E; cbn [root].
  - assumption.
  - by apply String.eqb_neq.
Qed.

Lemma foldl_path_add_rooted P args :
  root P ≠ EmptyString → root (foldl path_add P args) ≠ EmptyString.
Proof.
  revert P. induction args as [|a args IH]; intros P HP; cbn [foldl];
    auto using path_add_rooted.
Qed.

Lemma make_path_root c args :
  root_of c ≠ EmptyString → root (make_path (c :: args)) ≠ EmptyString.
Proof.
  intros Hc. unfold make_path. cbn [foldl]. apply foldl_path_add_rooted.
  unfold path_add. pose proof Hc as Hc'. apply String.eqb_neq in Hc'. by rewrite Hc'.
Qed.

Lemma make_path_single s : make_path [s] = Path (root_of s) (segments s).
Proof.
  unfold make_path. cbn [foldl]. unfold path_add. cbn [root parts app].
  destruct (root_of s == EmptyString) eqn:E; [|reflexivity].
  apply String.eqb_eq in E. by rewrite E.
Qed.

Lemma root_of_path_str P : well_formed P → root_of (path_str P) = root P.
Proof.
  intros HP. pose proof (path_str_parse P HP) as Hparse.
  rewrite make_path_single in Hparse. by rewrite <- Hparse at 2.
Qed.

Lemma archive_path_rooted c yr network sr_dir st_dir :
  root_of c ≠ EmptyString → root (archive_path c yr network sr_dir st_dir) ≠ EmptyString.
Proof.
  intros Hc. unfold archive_path. apply make_path_root.
  unfold absolute. change (root (make_path []) == EmptyString) with true. cbv iota.
  change (parts (make_path [])) with (@nil string). rewrite app_nil_r.
  rewrite root_of_path_str.
  - cbn [root]. by rewrite make_path_single.
  - destruct (make_path_well_formed c). by split.
Qed.

Lemma reparse_rooted c P :
  well_formed P → root P ≠ EmptyString →
  path_str (absolute c (make_path [path_str P])) = path_str P.
Proof. intros HP Hr. by rewrite path_str_parse, absolute_rooted. Qed.

(** X7: with an absolute working directory, and whatever strings the
    identity consists of, the two directories that
    [create_directories] returns are exactly the two it has created,
    the second one right after the first, and in pathlib's terms the
    log directory is the child [var_log] of the archive directory. *)
Theorem created_directories_are_returned w h sn network station local_dest log_dest t :
  (∀ c, w_cwd w = Ok c → root_of c ≠ EmptyString) →
  create_directories sn network station w h = (Ok (local_dest, log_dest), t) →
  (∃ pre, t = (pre ++ [EvMkdir local_dest (Ok tt); EvMkdir log_dest (Ok tt);
                       EvLog (nl ++ "...directory structure on local machine done.")])%list) ∧
  root (make_path [log_dest]) = root (make_path [local_dest]) ∧
  parts (make_path [log_dest]) = (parts (make_path [local_dest]) ++ ["var_log"])%list.
Proof.
  intros Hcwd. unfold create_directories.
  step. destruct (w_input w h phase_prompt) as [option|e]; tidy; [|discriminate].
  step. destruct (w_print w _ rule) as [[]|e]; tidy; [|discriminate].
  step.
  rewrite ?bind_assoc, bind_step, station_dir_run. cbn [fst snd]. tidy.
  step. destruct (w_cwd w) as [c|e] eqn:Hc; tidy; [|discriminate].
  specialize (Hcwd c eq_refl).
  step.
  set (p := archive_path _ _ _ _ _).
  assert (Hp : well_formed p) by apply make_path_well_formed_all.
  assert (Hpr : root p ≠ EmptyString) by by apply archive_path_rooted.
  rewrite (reparse_rooted _ p Hp Hpr).
  assert (Hlog : make_path [path_str p; "var_log"] = Path (root p) (parts p ++ ["var_log"])).
  { change (make_path [path_str p; "var_log"])
      with (path_add (make_path [path_str p]) "var_log").
    by rewrite path_str_parse, path_add_segment. }
  assert (Hlwf : well_formed (Path (root p) (parts p ++ ["var_log"]))).
  { destruct Hp as [Hr Hps]. split; [exact Hr|]. cbn [parts]. apply Forall_app.
    split; [exact Hps | by repeat constructor]. }
  rewrite Hlog, (reparse_rooted _ _ Hlwf Hpr).
  rewrite ?bind_assoc, bind_step. cbn [mkdir fst snd].
  destruct (w_mkdir w _ (path_str p)) as [[]|e1]; [|discriminate]. tidy.
  rewrite ?bind_assoc, bind_step. cbn [mkdir fst snd].
  destruct (w_mkdir w _ (path_str (Path (root p) (parts p ++ ["var_log"]))))
    as [[]|e2]; [|discriminate]. tidy.
  step. intros [= <- <- <-].
  rewrite !path_str_parse by assumption. cbn [root parts].
  split; [|auto]. rewrite <- app_assoc. cbn [app].
  lazymatch goal with
  | |- ∃ pre, (?x1 :: ?x2 :: ?x3 :: (?pe ++ ?y :: ?z :: _))%list = _ =>
      exists (x1 :: x2 :: x3 :: pe ++ [y; z])%list
  end.
  cbn [app]. by rewrite <- app_assoc.
Qed.

Lemma created_directories_are_returned_witness :
  (create_directories "00/06" "SBK_stations" "OBS" field_visit []).1
  = Ok ("/srv/archive/2024/SBK_stations/sr20240301/OBS_sn_00/06_1_BEX",
        "/srv/archive/2024/SBK_stations/sr20240301/OBS_sn_00/06_1_BEX/var_log") ∧
  parts (make_path ["/srv/archive/2024/SBK_stations/sr20240301/OBS_sn_00/06_1_BEX/var_log"])
  = (parts (make_path ["/srv/archive/2024/SBK_stations/sr20240301/OBS_sn_00/06_1_BEX"])
     ++ ["var_log"])%list.
Proof.
  split; [vm_compute; reflexivity|].
  refine (proj2 (proj2 (created_directories_are_returned field_visit [] "00/06"
            "SBK_stations" "OBS" _ _
            (create_directories "00/06" "SBK_stations" "OBS" field_visit []).2 _ _))).
  - intros c [= <-]. discriminate.
  - vm_compute. reflexivity.
Defined.

(** ** Where the artifacts of a visit end up *)












(** ** What comes before what *)

Section Preceded.
Variables g trig : event → bool.

Lemma preceded_seen t : preceded g trig true t = true.
Proof.
  induction t as [|ev t IH]; cbn; [reflexivity|]. by destruct (trig ev).
Qed.

Lemma preceded_mono seen t :
  preceded g trig false t = true → preceded g trig seen t = true.
Proof. destruct seen; [intros _; apply preceded_seen | auto]. Qed.

Lemma preceded_app seen t1 t2 :
  Forall (λ ev, trig ev = false) t1 →
  preceded g trig (seen || existsb g t1) t2 = true →
  preceded g trig seen (t1 ++ t2) = true.
Proof.
  intros Hq. revert seen. induction Hq as [|ev t1 Hev _ IH]; intros seen H2; cbn.
  - by rewrite orb_false_r in H2.
  - rewrite Hev. apply IH. cbn in H2. by rewrite orb_assoc in H2.
Qed.

Lemma preceded_app_l seen t1 t2 :
  preceded g trig seen t1 = true → Forall (λ ev, trig ev = false) t2 →
  preceded g trig seen (t1 ++ t2) = true.
Proof.
  revert seen. induction t1 as [|ev t1 IH]; intros seen H1 H2; cbn in *.
  - clear H1. revert seen. induction H2 as [|x t2 Hx _ IH]; intros seen; cbn; [reflexivity|].
    by rewrite Hx.
  - destruct (trig ev).
    + apply andb_prop in H1 as [-> H1]. cbn. auto.
    + auto.
Qed.

Lemma preceded_sound seen t pre ev post :
  preceded g trig seen t = true → t = (pre ++ ev :: post)%list → trig ev = true →
  seen || existsb g pre = true.
Proof.
  revert seen t. induction pre as [|x pre IH]; intros seen t Hg -> Htrig; cbn in Hg.
  - rewrite Htrig in Hg. apply andb_prop in Hg as [-> _]. reflexivity.
  - cbn [existsb]. destruct (trig x).
    + apply andb_prop in Hg as [-> _]. reflexivity.
    + specialize (IH _ _ Hg eq_refl Htrig). by rewrite orb_assoc.
Qed.

Lemma ordered_quiet {A B} (m : M A) (k : A → M B) :
  emits (λ ev, trig ev = false) m → (∀ a, ordered g trig (k a)) →
  ordered g trig (m ≫= k).
Proof.
  intros Hm Hk w h. rewrite bind_step. specialize (Hm w h).
  destruct (m w h) as [[a|e] t1]; cbn [fst snd] in *.
  - unfold after. cbn [snd]. apply preceded_app; [assumption|].
    apply preceded_mono, Hk.
  - rewrite <- (app_nil_r t1). by apply preceded_app.
Qed.

Lemma ordered_set {A B} (m : M A) (k : A → M B) :
  emits (λ ev, trig ev = false) m → sets g m → ordered g trig (m ≫= k).
Proof.
  intros Hm Hs w h. rewrite bind_step. specialize (Hm w h). specialize (Hs w h).
  destruct (m w h) as [[a|e] t1]; cbn [fst snd] in *.
  - unfold after. cbn [snd]. apply preceded_app; [assumption|].
    rewrite (Hs a eq_refl). apply preceded_seen.
  - rewrite <- (app_nil_r t1). by apply preceded_app.
Qed.

Lemma sets_bind_l {A B} (m : M A) (k : A → M B) : sets g m → sets g (m ≫= k).
Proof.
  intros Hm w h b. rewrite bind_step. specialize (Hm w h).
  destruct (m w h) as [[a|e] t1]; cbn [fst snd] in *; [|discriminate].
  unfold after. cbn [fst snd]. intros _. rewrite existsb_app, (Hm a eq_refl). reflexivity.
Qed.

Lemma sets_bind_r {A B} (m : M A) (k : A → M B) :
  (∀ a, sets g (k a)) → sets g (m ≫= k).
Proof.
  intros Hk w h b. rewrite bind_step.
  destruct (m w h) as [[a|e] t1]; cbn [fst snd] in *; [|discriminate].
  unfold after. cbn [fst snd]. intros Hb.
  rewrite existsb_app, (Hk a w _ b Hb). apply orb_true_r.
Qed.
End Preceded.

Lemma ordered_assoc {A B C} g trig (m : M A) (k : A → M B) (k' : B → M C) :
  ordered g trig (m ≫= λ a, k a ≫= k') → ordered g trig ((m ≫= k) ≫= k').
Proof. intros H w h. rewrite bind_assoc. apply H. Qed.

Lemma sets_login : sets logged_in (login user pwd).
Proof.
  intros w h a. cbn. destruct (w_login w h user pwd); [reflexivity | discriminate].
Qed.

Lemma sets_open : sets connected (open_connection ip).
Proof.
  intros w h a. cbn. destruct (w_open_connection w h ip); [reflexivity | discriminate].
Qed.

Lemma sets_keygen hm :
  sets host_key_removed
    (subprocess_call ("ssh-keygen -f " ++ dq ++ hm ++ "/.ssh/known_hosts" ++ dq ++ " -R " ++ ip)).
Proof. intros w h a. cbn. destruct (w_call w h _); [reflexivity | discriminate]. Qed.



Lemma session_logs_in_first nets : ordered logged_in is_remote (session_with nets).
Proof.
  unfold session_with, service.
  apply ordered_assoc, ordered_quiet; [quiet | intros _].
  apply ordered_assoc, ordered_set; [quiet|].
  unfold ssh_connection. do 3 (apply sets_bind_r; intros ?).
  apply sets_bind_l, sets_login.
Qed.

Lemma session_connects_first nets : ordered connected is_remote (session_with nets).
Proof.
  unfold session_with, service.
  apply ordered_assoc, ordered_quiet; [quiet | intros _].
  apply ordered_assoc, ordered_set; [quiet|].
  unfold ssh_connection. do 2 (apply sets_bind_r; intros ?).
  apply sets_bind_l, sets_open.
Qed.

Lemma logged_in_inv ev : logged_in ev = true → ev = EvLogin user pwd (Ok tt).
Proof.
  destruct ev as [| | | | | | | |usr pw [[]|]| | | | | | |]; try discriminate.
  cbn -[user pwd].
  intros H. apply andb_prop in H as [Hu Hp].
  apply String.eqb_eq in Hu as ->. apply String.eqb_eq in Hp as ->. reflexivity.
Qed.

Lemma connected_inv ev : connected ev = true → ev = EvOpenConnection ip (Ok tt).
Proof.
  destruct ev as [| | | | | | |host [[]|]| | | | | | | |]; try discriminate. cbn -[ip].
  intros H. apply String.eqb_eq in H as ->. reflexivity.
Qed.

(** X10: nothing is asked of the device before the session is open:
    every remote operation of a run (command, listing, file or
    directory fetch) comes after the successful connection to the
    configured address and the successful login with the configured
    credentials. *)
Theorem remote_operations_follow_login nets w h pre ev post :
  (session_with nets w h).2 = (pre ++ ev :: post)%list →
  is_remote ev = true →
  In (EvOpenConnection ip (Ok tt)) pre ∧ In (EvLogin user pwd (Ok tt)) pre.
Proof.
  intros Ht Hrem. split.
  - pose proof (preceded_sound _ _ _ _ _ _ _ (session_connects_first nets w h) Ht Hrem) as H.
    apply existsb_exists in H as (x & Hin & Hx). by apply connected_inv in Hx as ->.
  - pose proof (preceded_sound _ _ _ _ _ _ _ (session_logs_in_first nets w h) Ht Hrem) as H.
    apply existsb_exists in H as (x & Hin & Hx). by apply logged_in_inv in Hx as ->.
Qed.

Lemma remote_operations_follow_login_witness :
  In (EvLogin user pwd (Ok tt)) (firstn 6 (session field_visit []).2).
Proof.
  refine (proj2 (remote_operations_follow_login networks field_visit []
            (firstn 6 (session field_visit []).2)
            (EvExecute serial_command (Ok "00006"))
            (skipn 7 (session field_visit []).2) _ eq_refl)).
  vm_compute. reflexivity.
Defined.


Lemma session_removes_host_key_first nets :
  ordered host_key_removed is_connect (session_with nets).
Proof.
  unfold session_with, service.
  apply ordered_assoc, ordered_quiet; [quiet | intros _].
  unfold ssh_connection.
  do 2 apply ordered_assoc. apply ordered_quiet; [quiet | intros hm].
  apply ordered_assoc, ordered_set; [quiet | apply sets_keygen].
Qed.

(** X11: the cached host key is dealt with before any connection
    attempt: every [open_connection] of a run, successful or not, comes
    after an [ssh-keygen -f ...] command that the local shell has run
    (with whatever exit status). *)
Theorem host_key_removed_before_connecting nets w h pre ev post :
  (session_with nets w h).2 = (pre ++ ev :: post)%list →
  is_connect ev = true →
  ∃ rest status, In (EvCall ("ssh-keygen -f " ++ rest) (Ok status)) pre.
Proof.
  intros Ht Hc.
  pose proof (preceded_sound _ _ _ _ _ _ _ (session_removes_host_key_first nets w h) Ht Hc)
    as H.
  apply existsb_exists in H as (x & Hin & Hx).
  destruct x as [| | |command [status|]| | | | | | | | | | | |]; try discriminate.
  cbn in Hx. apply prefix_spec in Hx as [rest ->]. eauto.
Qed.

Lemma host_key_removed_before_connecting_witness :
  ∃ rest status,
    In (EvCall ("ssh-keygen -f " ++ rest) (Ok status)) (firstn 3 (session field_visit []).2).
Proof.
  apply (host_key_removed_before_connecting networks field_visit []
           (firstn 3 (session field_visit []).2)
           (EvOpenConnection ip (Ok tt))
           (skipn 4 (session field_visit []).2)); [|reflexivity].
  vm_compute. reflexivity.
Defined.





Lemma emits_lift_ok {A B} P (a : A) (k : A → M B) :
  emits P (k a) → emits P (lift (Ok a) ≫= k).
Proof. intros H w h. rewrite bind_step. cbn. unfold after. cbn. apply H. Qed.

Lemma emits_for_each_in {A} P (l : list A) (body : A → M unit) :
  (∀ x, In x l → emits P (body x)) → emits P (for_each l body).
Proof.
  induction l as [|x l IH]; intros Hbody; cbn [for_each]; [apply emits_ret|].
  apply emits_bind; [apply Hbody; left; reflexivity | intros _].
  apply IH. intros y Hy. apply Hbody. right. exact Hy.
Qed.

Ltac permitted :=
  cbn [allowed_remote];
  first [ exact I
        | reflexivity
        | solve [left; cbn [In]; auto 10]
        | solve [right; eexists; reflexivity]
        | solve [left; split; reflexivity]
        | solve [right; split; reflexivity] ].

Lemma download_logs_allowed log_dest : emits allowed_remote (download_logs log_dest).
Proof.
  unfold download_logs.
  apply emits_bind; [apply emits_list_files; intros r; reflexivity | intros all_logs].
  rewrite select_logs_filter. apply emits_lift_ok.
  apply emits_bind; [|intros _; apply emits_emit; exact I].
  apply emits_for_each_in. intros f Hf. apply filter_In in Hf as [_ Hf].
  apply emits_get_file. intros r. exists log_dest, f. auto.
Qed.

Lemma session_allowed nets : emits allowed_remote (session_with nets).
Proof.
  unfold session_with, service. apply emits_bind.
  - apply emits_bind; [emits_with permitted | intros _].
    apply emits_bind; [emits_with permitted | intros _].
    apply emits_bind; [emits_with permitted | intros [[sn network] station]].
    apply emits_bind; [emits_with permitted | intros [local_dest log_dest]].
    apply emits_bind; [apply download_logs_allowed | intros _].
    apply emits_bind; [emits_with permitted | intros _]. apply emits_ret.
  - intros local_dest. emits_with permitted.
Qed.

(** X13: whatever the registry, the answers at the prompts and the
    replies of the logger, a run touches the remote side only in the
    ways written in the script: six fixed commands and the [ls] of the
    year directory are executed, only /var/log/ is listed, only listed
    files named [ruwai] or [ruwai.<rest>] are copied (from /var/log/,
    keeping their names), and only mseed_tmp (not recursively) or
    /media/. (recursively) is fetched. *)
Theorem remote_operations_are_fixed nets w h ev :
  In ev (session_with nets w h).2 → allowed_remote ev.
Proof.
  intros Hin. pose proof (session_allowed nets w h) as H.
  rewrite List.Forall_forall in H. exact (H ev Hin).
Qed.

Lemma remote_operations_are_fixed_witness :
  allowed_remote (EvExecute serial_command (Ok "00006")).
Proof.
  apply (remote_operations_are_fixed networks field_visit []).
  vm_compute. do 6 right. left. reflexivity.
Defined.

Lemma filter_none (P : event → bool) t :
  Forall (λ ev, P ev = false) t → List.filter P t = [].
Proof.
  induction 1 as [|x t Hx _ IH]; [reflexivity|]. cbn. rewrite Hx. exact IH.
Qed.

Lemma at_most_quiet n P {A} (m : M A) :
  emits (λ ev, P ev = false) m → at_most n P m.
Proof. intros H w h. rewrite (filter_none P _ (H w h)). cbn. lia. Qed.

Lemma at_most_bind_l n P {A B} (m : M A) (k : A → M B) :
  at_most n P m → (∀ a, emits (λ ev, P ev = false) (k a)) → at_most n P (m ≫= k).
Proof.
  intros Hm Hk w h. rewrite bind_step. specialize (Hm w h).
  destruct (m w h) as [[a|e] t1]; cbn [fst snd] in *; [|assumption].
  unfold after. cbn [snd]. rewrite List.filter_app, (filter_none P _ (Hk a w _)), app_nil_r.
  assumption.
Qed.

Lemma at_most_bind_r n P {A B} (m : M A) (k : A → M B) :
  emits (λ ev, P ev = false) m → (∀ a, at_most n P (k a)) → at_most n P (m ≫= k).
Proof.
  intros Hm Hk w h. rewrite bind_step. specialize (Hm w h).
  destruct (m w h) as [[a|e] t1]; cbn [fst snd] in *.
  - unfold after. cbn [snd]. rewrite List.filter_app, (filter_none P _ Hm). apply Hk.
  - rewrite (filter_none P _ Hm). cbn. lia.
Qed.

Lemma at_most_bind n1 n2 P {A B} (m : M A) (k : A → M B) :
  at_most n1 P m → (∀ a, at_most n2 P (k a)) → at_most (n1 + n2) P (m ≫= k).
Proof.
  intros Hm Hk w h. rewrite bind_step. specialize (Hm w h).
  destruct (m w h) as [[a|e] t1]; cbn [fst snd] in *; [|lia].
  unfold after. cbn [snd]. rewrite List.filter_app, List.length_app.
  specialize (Hk a w (h ++ t1)%list). lia.
Qed.

Lemma at_most_single P {A} (m : M A) :
  (∀ w h, (List.length (m w h).2 ≤ 1)%nat) → at_most 1 P m.
Proof.
  intros H w h. specialize (H w h). pose proof (List.filter_length_le P (m w h).2). lia.
Qed.

Lemma one_event_get_directory src dst rec w h :
  (List.length (get_directory src dst rec w h).2 ≤ 1)%nat.
Proof. unfold get_directory. destruct (w_get_directory w h src dst rec); cbn; lia. Qed.

Lemma one_event_execute command w h :
  (List.length (execute_command command w h).2 ≤ 1)%nat.
Proof. unfold execute_command. destruct (w_execute_command w h command); cbn; lia. Qed.

Lemma service_never_fetches nets :
  emits (λ ev, is_fetch ev = false) (service nets).
Proof. quiet. Qed.

Lemma service_never_wipes nets :
  emits (λ ev, is_wipe ev = false) (service nets).
Proof. quiet. Qed.

(** X14: a run fetches at most one directory tree, and issues at most
    two removal commands, whatever is answered at the prompts: the
    chain of download options is gone through once and never
    repeated. *)
Theorem one_download_per_run nets w h :
  (List.length (List.filter is_fetch (session_with nets w h).2) ≤ 1)%nat ∧
  (List.length (List.filter is_wipe (session_with nets w h).2) ≤ 2)%nat.
Proof.
  split.
  - revert w h. change (at_most 1 is_fetch (session_with nets)).
    unfold session_with.
    apply at_most_bind_r; [apply service_never_fetches | intros local_dest].
    apply at_most_bind_l; [|intros _; quiet].
    unfold data_download.
    apply at_most_bind_r; [quiet | intros _].
    apply at_most_bind_r; [quiet | intros option].
    unfold download_option.
    repeat (destruct (_ == _); [first [apply at_most_quiet; quiet |
      apply at_most_bind_l; [apply at_most_single, one_event_get_directory | intros _; quiet]]|]).
    apply at_most_quiet. quiet.
  - revert w h. change (at_most 2 is_wipe (session_with nets)).
    unfold session_with.
    apply at_most_bind_r; [apply service_never_wipes | intros local_dest].
    apply at_most_bind_l; [|intros _; quiet].
    unfold data_download.
    apply at_most_bind_r; [quiet | intros _].
    apply at_most_bind_r; [quiet | intros option].
    unfold download_option.
    repeat (destruct (_ == _); [first [apply at_most_quiet; quiet | idtac]|]).
    + apply at_most_bind_r; [quiet | intros _].
      apply (at_most_bind 1 1); [apply at_most_single, one_event_execute | intros _].
      apply at_most_bind_l; [apply at_most_single, one_event_execute | intros _; quiet].
    + apply at_most_quiet. quiet.
Qed.
